(** * Balance reconciliation and chain-state snapshots of the Calamari squid

    A shallow embedding of the batch processor (the two revisions of
    [processor.ts] found in the sources) and of [chainState.ts], with the
    properties of the reconciliation and snapshot pipeline proved over it.

    Conventions.
    - [bigint] and integral [number] values are [Z].
    - A [Uint8Array] is a [list byte].
    - A thrown exception is [Err e]; an [async] function that completes is
      [Ok v].  Effects on the persisted store and on the logger are threaded
      explicitly through a [World].
    - A JavaScript [Set] / [Map] keeps insertion order, so both are lists
      without repeated elements / keys.
    - The [Account] table is a finite map keyed by the primary key [id]. *)

From Stdlib Require Import ZArith String.
From stdpp Require Import base option list gmap strings.

Local Open Scope Z_scope.
Set Warnings "-clear-no-such-hyp".

Abbreviation bytes := (list Byte.byte).

(** ** Exceptions *)

Inductive error : Type :=
  | UnknownVersionError (name : string)   (* thrown by the processor *)
  | AssertionError                        (* [assert] of the generated classes *)
  | TypeError                             (* property access on [undefined] *)
  | QueryFailedError.                     (* primary-key violation on insert *)

Inductive result (A : Type) : Type :=
  | Ok (a : A)
  | Err (e : error).
Arguments Ok {A} a.
Arguments Err {A} e.

#[global] Instance result_ret : MRet result := @Ok.
#[global] Instance result_bind : MBind result := fun A B f m =>
  match m with
  | Ok a => f a
  | Err e => Err e
  end.

(** ** JavaScript [Set<string>] and [Map<string, V>] *)

Module JsSet.
Definition t := list string.
Definition empty : t := [].
Definition add (x : string) (s : t) : t :=
  if decide (x ∈ s) then s else s ++ [x].
Definition clear (s : t) : t := [].
(* [[...s]] *)
Definition spread (s : t) : list string := s.
End JsSet.

Module JsMap.
Section Map.
Context {V : Type}.
Definition t := list (string * V).
Definition empty : t := [].
Fixpoint set (k : string) (v : V) (m : t) : t :=
  match m with
  | [] => [(k, v)]
  | (k', v') :: m' =>
      if decide (k = k') then (k, v) :: m' else (k', v') :: set k v m'
  end.
Fixpoint get (k : string) (m : t) : option V :=
  match m with
  | [] => None
  | (k', v') :: m' => if decide (k = k') then Some v' else get k m'
  end.
Definition values (m : t) : list V := m.*2.
Definition keys (m : t) : list string := m.*1.
Definition size (m : t) : nat := length m.
End Map.
Arguments t V : clear implicits.
End JsMap.

(** ** Entities of the persisted store ([model], [db/migrations]) *)

Module Balance.
Record t := mk { free : Z; reserved : Z }.
End Balance.

Module Account.
(* [new Account({id})] leaves every other property undefined. *)
Record t := mk {
  id : string;
  free : option Z;
  reserved : option Z;
  total : option Z;
  updatedAt : option Z;
}.
End Account.

Module ChainState.
Record t := mk {
  id : string;
  timestamp : Z;
  blockNumber : Z;
  totalIssuance : Z;
  tokenHolders : Z;
}.
End ChainState.

#[global] Instance Balance_eq_dec : EqDecision Balance.t.
Proof. solve_decision. Defined.
#[global] Instance Account_eq_dec : EqDecision Account.t.
Proof. solve_decision. Defined.
#[global] Instance ChainState_eq_dec : EqDecision ChainState.t.
Proof. solve_decision. Defined.

(** The typeorm store: three tables.  [chain_state] is kept in insertion
    order; [current_chain_state] holds the rows of the "current" record. *)
Record Store := mkStore {
  accounts : gmap string Account.t;
  chainStates : list ChainState.t;
  currentChainStates : list ChainState.t;
}.

Inductive LogEntry : Type :=
  | LogWarn (msg : string)
  | LogAccounts (updated deleted : nat)   (* `updated: n, deleted: m` *)
  | LogState (height : Z).                (* `updated at block h` *)

Record World := mkWorld {
  store : Store;
  log : list LogEntry;
}.

Module StoreOps.
(* [store.save(entities)]: upsert by primary key, in order *)
Definition save (es : list Account.t) (s : Store) : Store :=
  mkStore (foldl (fun t a => <[Account.id a := a]> t) (accounts s) es)
    (chainStates s) (currentChainStates s).
(* [store.remove(entities)]: delete by primary key, in order *)
Definition remove (es : list Account.t) (s : Store) : Store :=
  mkStore (foldl (fun t a => delete (Account.id a) t) (accounts s) es)
    (chainStates s) (currentChainStates s).
(* [store.count(Account)] *)
Definition count (s : Store) : Z := Z.of_nat (size (accounts s)).
(* [store.insert(state)]: a plain INSERT, rejected on a duplicate key *)
Definition insert (c : ChainState.t) (s : Store) : result Store :=
  if decide (ChainState.id c ∈ ChainState.id <$> chainStates s)
  then Err QueryFailedError
  else Ok (mkStore (accounts s) (chainStates s ++ [c]) (currentChainStates s)).
(* [store.get(ChainState, {where: {}, order: {timestamp: 'DESC'}})]: a row
   of greatest timestamp *)
Fixpoint latest (rows : list ChainState.t) : option ChainState.t :=
  match rows with
  | [] => None
  | c :: rows' =>
      match latest rows' with
      | Some c' =>
          if ChainState.timestamp c <? ChainState.timestamp c'
          then Some c' else Some c
      | None => Some c
      end
  end.
End StoreOps.

(** ** The chain: runtime metadata and storage queries

    [getEventHash] and [getStorageItemTypeHash] are the runtime fingerprints
    of an event and of a storage item ([None] when the item is not
    defined); [getStorage] reads the issuance value; [queryStorage] is the
    batched read of [System.Account], one key tuple per requested
    account. *)

Module v1.
Record AccountData := mkAccountData {
  free : Z;
  reserved : Z;
  miscFrozen : Z;
  feeFrozen : Z;
}.
Record AccountInfo := mkAccountInfo {
  nonce : Z;
  consumers : Z;
  providers : Z;
  data : AccountData;
}.
End v1.

Record Chain := mkChain {
  getEventHash : string → string;
  getStorageItemTypeHash : string → string → option string;
  getStorage : string → string → string → Z;
  queryStorage : string → string → string → list (list bytes) → list v1.AccountInfo;
}.

Record SubstrateBlock := mkBlock {
  id : string;
  height : Z;
  hash : string;
  timestamp : Z;
}.

Record Event := mkEvent {
  event_name : string;
  event_args : bytes;
}.

Record Item := mkItem {
  kind : string;
  name : string;
  event : Event;
}.

Record BlockData := mkBlockData {
  header : SubstrateBlock;
  items : list Item;
}.

Record Context := mkContext {
  _chain : Chain;
  blocks : list BlockData;
}.

(** ** Generated storage classes ([types/generated/storage.ts]) *)

Module BalancesTotalIssuanceStorage.
Definition hashV1 : string :=
  "f8ebe28eb30158172c0ccf672f7747c46a244f892d08ef2ebcbaadde34a26bc0".
Definition isV1 (c : Chain) : bool :=
  bool_decide (getStorageItemTypeHash c "Balances" "TotalIssuance" = Some hashV1).
Definition getAsV1 (c : Chain) (blockHash : string) : result Z :=
  if isV1 c then Ok (getStorage c blockHash "Balances" "TotalIssuance")
  else Err AssertionError.
Definition isExists (c : Chain) : bool :=
  bool_decide (getStorageItemTypeHash c "Balances" "TotalIssuance" ≠ None).
End BalancesTotalIssuanceStorage.

Module SystemAccountStorage.
Definition hashV1 : string :=
  "73070b537f1805475b37167271b33ac7fd6ffad8ba62da08bc14937a017b8bb2".
Definition hashV3 : string :=
  "1ddc7ade926221442c388ee4405a71c9428e548fab037445aaf4b3a78f4735c1".
Definition isV1 (c : Chain) : bool :=
  bool_decide (getStorageItemTypeHash c "System" "Account" = Some hashV1).
Definition getManyAsV1 (c : Chain) (blockHash : string) (keys : list bytes)
  : result (list v1.AccountInfo) :=
  if isV1 c
  then Ok (queryStorage c blockHash "System" "Account" ((fun k => [k]) <$> keys))
  else Err AssertionError.
Definition isV3 (c : Chain) : bool :=
  bool_decide (getStorageItemTypeHash c "System" "Account" = Some hashV3).
(* [v3.AccountInfo] is read through its [data.free] and [data.reserved]
   only, which it shares with [v1.AccountInfo]. *)
Definition getManyAsV3 (c : Chain) (blockHash : string) (keys : list bytes)
  : result (list v1.AccountInfo) :=
  if isV3 c
  then Ok (queryStorage c blockHash "System" "Account" ((fun k => [k]) <$> keys))
  else Err AssertionError.
Definition isExists (c : Chain) : bool :=
  bool_decide (getStorageItemTypeHash c "System" "Account" ≠ None).
End SystemAccountStorage.

(** ** [chainState.ts] *)

Definition getTotalIssuance (ctx : Context) (block : SubstrateBlock)
  : result (option Z) :=
  let c := _chain ctx in
  if negb (BalancesTotalIssuanceStorage.isExists c) then Ok None
  else if BalancesTotalIssuanceStorage.isV1 c
  then v ← BalancesTotalIssuanceStorage.getAsV1 c (hash block); Ok (Some v)
  else Err (UnknownVersionError "BalancesTotalIssuanceStorage").

(* [x || 0n] *)
Definition or_zero (x : option Z) : Z :=
  match x with
  | Some v => if v =? 0 then 0 else v
  | None => 0
  end.

Definition getChainState (ctx : Context) (w : World) (block : SubstrateBlock)
  : result ChainState.t :=
  issuance ← getTotalIssuance ctx block;
  Ok (ChainState.mk (id block) (timestamp block) (height block)
        (or_zero issuance) (StoreOps.count (store w))).

Definition saveRegularChainState (ctx : Context) (w : World)
  (block : SubstrateBlock) : result World :=
  state ← getChainState ctx w block;
  s ← StoreOps.insert state (store w);
  Ok (mkWorld s (log w ++ [LogState (height block)])).

(** Modelled from the spec: [saveCurrentChainState] is imported by the
    scheduling revision of the processor but is not defined in the
    [chainState.ts] at hand.  Following the specification, it computes the
    chain state of the block like [getChainState] and overwrites the
    single "current" record with it. *)
Definition saveCurrentChainState (ctx : Context) (w : World)
  (block : SubstrateBlock) : result World :=
  state ← getChainState ctx w block;
  Ok (mkWorld
        (mkStore (accounts (store w)) (chainStates (store w)) [state])
        (log w)).

(** ** Generated event classes ([types/generated/events])

    The generated module is not among the sources.  Each class wraps an
    event and exposes, per known runtime version, a test [isVn] on the
    event's fingerprint and the decoded payload [asVn].  A class is kept
    here as the record of these members; of the positional payloads (V1,
    V3100) only the account components read by the processor are kept. *)

Module events.
Record Who := mkWho { who : bytes }.
Record Endowed := mkEndowed { account : bytes }.
Record FromTo := mkFromTo { from : bytes; to : bytes }.
Record EventData (T N : Type) := mkEventData {
  constructor_name : string;
  isV1 : bool;
  asV1 : T;
  isV3100 : bool;
  asV3100 : T;
  isV3110 : bool;
  asV3110 : N;
}.
Arguments constructor_name {T N} _.
Arguments isV1 {T N} _.
Arguments asV1 {T N} _.
Arguments isV3100 {T N} _.
Arguments asV3100 {T N} _.
Arguments isV3110 {T N} _.
Arguments asV3110 {T N} _.
Arguments mkEventData {T N}.

Record Classes := mkClasses {
  BalancesBalanceSetEvent : Context → Event → EventData bytes Who;
  BalancesTransferEvent : Context → Event → EventData (bytes * bytes) FromTo;
  BalancesEndowedEvent : Context → Event → EventData bytes Endowed;
  BalancesDepositEvent : Context → Event → EventData bytes Who;
  BalancesReservedEvent : Context → Event → EventData bytes Who;
  BalancesUnreservedEvent : Context → Event → EventData bytes Who;
  BalancesWithdrawEvent : Context → Event → EventData bytes Who;
  BalancesSlashedEvent : Context → Event → EventData bytes Who;
  BalancesReserveRepatriatedEvent :
    Context → Event → EventData (bytes * bytes) FromTo;
}.
End events.

(** ** The processor: what both revisions share *)

Section Processor.

(** External codecs: [toHex] / [decodeHex] of the processor library and the
    ss58 address encoder behind [encodeId]. *)
Variable toHex : bytes → string.
Variable decodeHex : string → bytes.
Variable encodeId : bytes → string.
Variable classes : events.Classes.

Import events.

Definition getBalanceSetAccount (ctx : Context) (event : Event) : result string :=
  let data := BalancesBalanceSetEvent classes ctx event in
  if isV1 data then Ok (toHex (asV1 data))
  else if isV3110 data then Ok (toHex (who (asV3110 data)))
  else Err (UnknownVersionError (constructor_name data)).

Definition getTransferAccounts (ctx : Context) (event : Event)
  : result (string * string) :=
  let data := BalancesTransferEvent classes ctx event in
  if isV1 data then Ok (toHex (asV1 data).1, toHex (asV1 data).2)
  else if isV3110 data
  then Ok (toHex (from (asV3110 data)), toHex (to (asV3110 data)))
  else Err (UnknownVersionError (constructor_name data)).

Definition getEndowedAccount (ctx : Context) (event : Event) : result string :=
  let data := BalancesEndowedEvent classes ctx event in
  if isV1 data then Ok (toHex (asV1 data))
  else if isV3110 data then Ok (toHex (account (asV3110 data)))
  else Err (UnknownVersionError (constructor_name data)).

Definition getDepositAccount (ctx : Context) (event : Event) : result string :=
  let data := BalancesDepositEvent classes ctx event in
  if isV1 data then Ok (toHex (asV1 data))
  else if isV3110 data then Ok (toHex (who (asV3110 data)))
  else Err (UnknownVersionError (constructor_name data)).

Definition getReservedAccount (ctx : Context) (event : Event) : result string :=
  let data := BalancesReservedEvent classes ctx event in
  if isV1 data then Ok (toHex (asV1 data))
  else if isV3110 data then Ok (toHex (who (asV3110 data)))
  else Err (UnknownVersionError (constructor_name data)).

Definition getUnreservedAccount (ctx : Context) (event : Event) : result string :=
  let data := BalancesUnreservedEvent classes ctx event in
  if isV1 data then Ok (toHex (asV1 data))
  else if isV3110 data then Ok (toHex (who (asV3110 data)))
  else Err (UnknownVersionError (constructor_name data)).

Definition getWithdrawAccount (ctx : Context) (event : Event) : result string :=
  let data := BalancesWithdrawEvent classes ctx event in
  if isV3100 data then Ok (toHex (asV3100 data))
  else if isV3110 data then Ok (toHex (who (asV3110 data)))
  else Err (UnknownVersionError (constructor_name data)).

Definition getSlashedAccount (ctx : Context) (event : Event) : result string :=
  let data := BalancesSlashedEvent classes ctx event in
  if isV3100 data then Ok (toHex (asV3100 data))
  else if isV3110 data then Ok (toHex (who (asV3110 data)))
  else Err (UnknownVersionError (constructor_name data)).

Definition getReserveRepatriatedAccounts (ctx : Context) (event : Event)
  : result (string * string) :=
  let data := BalancesReserveRepatriatedEvent classes ctx event in
  if isV1 data then Ok (toHex (asV1 data).1, toHex (asV1 data).2)
  else if isV3110 data
  then Ok (toHex (from (asV3110 data)), toHex (to (asV3110 data)))
  else Err (UnknownVersionError (constructor_name data)).

(** The [switch] on the event name; a name outside the nine cases falls
    through and leaves the set alone. *)
Definition processBalancesEventItem (ctx : Context) (item : Item)
  (accountIdsHex : JsSet.t) : result JsSet.t :=
  if String.eqb (name item) "Balances.BalanceSet" then
    account ← getBalanceSetAccount ctx (event item);
    Ok (JsSet.add account accountIdsHex)
  else if String.eqb (name item) "Balances.Endowed" then
    account ← getEndowedAccount ctx (event item);
    Ok (JsSet.add account accountIdsHex)
  else if String.eqb (name item) "Balances.Deposit" then
    account ← getDepositAccount ctx (event item);
    Ok (JsSet.add account accountIdsHex)
  else if String.eqb (name item) "Balances.Reserved" then
    account ← getReservedAccount ctx (event item);
    Ok (JsSet.add account accountIdsHex)
  else if String.eqb (name item) "Balances.Unreserved" then
    account ← getUnreservedAccount ctx (event item);
    Ok (JsSet.add account accountIdsHex)
  else if String.eqb (name item) "Balances.Withdraw" then
    account ← getWithdrawAccount ctx (event item);
    Ok (JsSet.add account accountIdsHex)
  else if String.eqb (name item) "Balances.Slashed" then
    account ← getSlashedAccount ctx (event item);
    Ok (JsSet.add account accountIdsHex)
  else if String.eqb (name item) "Balances.Transfer" then
    accounts ← getTransferAccounts ctx (event item);
    Ok (JsSet.add accounts.2 (JsSet.add accounts.1 accountIdsHex))
  else if String.eqb (name item) "Balances.ReserveRepatriated" then
    accounts ← getReserveRepatriatedAccounts ctx (event item);
    Ok (JsSet.add accounts.2 (JsSet.add accounts.1 accountIdsHex))
  else Ok accountIdsHex.

(** *** [saveAccounts]

    The body is the same in both revisions; they differ in the
    [getBalances] they call. *)

Section SaveAccounts.

Variable getBalances :
  Context → SubstrateBlock → list bytes →
  result (option (list (option Balance.t))).

(* [balances[i]]: [undefined] past the end of the array, too *)
Definition balanceAt (balances : list (option Balance.t)) (i : nat)
  : option Balance.t :=
  mjoin (balances !! i).

(* The [for] loop from index [i] on, [rest] being [accountIds.slice(i)]. *)
Fixpoint saveAccounts_loop (block : SubstrateBlock)
  (balances : list (option Balance.t)) (i : nat) (rest : list bytes)
  (accounts deletions : JsMap.t Account.t)
  : JsMap.t Account.t * JsMap.t Account.t :=
  match rest with
  | [] => (accounts, deletions)
  | a :: rest' =>
      let id := encodeId a in
      match balanceAt balances i with
      | None => saveAccounts_loop block balances (S i) rest' accounts deletions
      | Some balance =>
          let total := Balance.free balance + Balance.reserved balance in
          if 0 <? total then
            saveAccounts_loop block balances (S i) rest'
              (JsMap.set id
                 (Account.mk id (Some (Balance.free balance))
                    (Some (Balance.reserved balance)) (Some total)
                    (Some (height block)))
                 accounts)
              deletions
          else
            saveAccounts_loop block balances (S i) rest' accounts
              (JsMap.set id (Account.mk id None None None None) deletions)
      end
  end.

Definition saveAccounts (ctx : Context) (w : World) (block : SubstrateBlock)
  (accountIds : list bytes) : result World :=
  balances ← getBalances ctx block accountIds;
  match balances with
  | None => Ok (mkWorld (store w) (log w ++ [LogWarn "No balances"]))
  | Some balances =>
      let '(accounts, deletions) :=
        saveAccounts_loop block balances 0 accountIds JsMap.empty JsMap.empty in
      let s1 := StoreOps.save (JsMap.values accounts) (store w) in
      let s2 := StoreOps.remove (JsMap.values deletions) s1 in
      Ok (mkWorld s2
            (log w ++ [LogAccounts (JsMap.size accounts) (JsMap.size deletions)]))
  end.

End SaveAccounts.

End Processor.

(* [data.map((d) => ({ free: d.data.free, reserved: d.data.reserved }))] *)
Definition toBalances (data : list v1.AccountInfo) : list (option Balance.t) :=
  (fun d => Some (Balance.mk (v1.free (v1.data d)) (v1.reserved (v1.data d))))
    <$> data.

(* A [for ... of] loop whose body may throw. *)
Fixpoint forOf {A S : Type} (body : S → A → result S) (xs : list A) (s : S)
  : result S :=
  match xs with
  | [] => Ok s
  | x :: xs' => s' ← body s x; forOf body xs' s'
  end.

(** ** Revision with the snapshot scheduler ([src/unnamed/part_000])

    The account extractors called by [processBalancesEventItem] are not
    defined in this revision's file; they are the ones above. *)

Module Scheduled.
Section Scheduled.
Variable toHex : bytes → string.
Variable decodeHex : string → bytes.
Variable encodeId : bytes → string.
Variable classes : events.Classes.

(* 12 hours *)
Definition SAVE_PERIOD : Z := 12 * 60 * 60 * 1000.

Definition getLastChainState (s : Store) : option ChainState.t :=
  StoreOps.latest (chainStates s).

Definition getSystemAccountBalances (ctx : Context) (block : SubstrateBlock)
  (accounts : list bytes) : result (option (list (option Balance.t))) :=
  if negb (SystemAccountStorage.isExists (_chain ctx)) then Ok None
  else
    let data := queryStorage (_chain ctx) (hash block) "System" "Account"
                  ((fun a => [a]) <$> accounts) in
    Ok (Some (toBalances data)).

Definition getBalances (ctx : Context) (block : SubstrateBlock)
  (accounts : list bytes) : result (option (list (option Balance.t))) :=
  getSystemAccountBalances ctx block accounts.

Definition saveAccounts : Context → World → SubstrateBlock → list bytes → result World :=
  saveAccounts encodeId getBalances.

(** The state of the [for] loop over [ctx.blocks]: the world, the
    module-level [lastStateTimestamp] and the set [accountIdsHex]. *)
Record Loop := mkLoop {
  world : World;
  lastStateTimestamp : option Z;
  accountIdsHex : JsSet.t;
}.

(* [lastStateTimestamp] after the [== null] test of the loop body *)
Definition initTimestamp (w : World) (last : option Z) : Z :=
  match last with
  | None => or_zero (ChainState.timestamp <$> getLastChainState (store w))
  | Some t => t
  end.

(* One iteration of the loop over [ctx.blocks]. *)
Definition processBlock (ctx : Context) (st : Loop) (block : BlockData)
  : result Loop :=
  ids ← forOf (fun s item => processBalancesEventItem toHex classes ctx item s)
          (items block) (accountIdsHex st);
  let last := initTimestamp (world st) (lastStateTimestamp st) in
  if SAVE_PERIOD <=? timestamp (header block) - last then
    let accountIdsU8 := decodeHex <$> JsSet.spread ids in
    w1 ← saveAccounts ctx (world st) (header block) accountIdsU8;
    w2 ← saveRegularChainState ctx w1 (header block);
    Ok (mkLoop w2 (Some (timestamp (header block))) (JsSet.clear ids))
  else Ok (mkLoop (world st) (Some last) ids).

Definition processBalances (ctx : Context) (w : World) (last : option Z)
  : result (World * option Z) :=
  st ← forOf (processBlock ctx) (blocks ctx) (mkLoop w last JsSet.empty);
  match list.last (blocks ctx) with
  | None => Err TypeError
  | Some block =>
      let accountIdsU8 := decodeHex <$> JsSet.spread (accountIdsHex st) in
      w1 ← saveAccounts ctx (world st) (header block) accountIdsU8;
      w2 ← saveCurrentChainState ctx w1 (header block);
      Ok (w2, lastStateTimestamp st)
  end.

End Scheduled.
End Scheduled.

(** ** Revision with versioned storage decoders ([src/unnamed/part_001]) *)

Module Versioned.
Section Versioned.
Variable toHex : bytes → string.
Variable decodeHex : string → bytes.
Variable encodeId : bytes → string.
Variable classes : events.Classes.

Definition getSystemAccountBalances (ctx : Context) (block : SubstrateBlock)
  (accounts : list bytes) : result (option (list (option Balance.t))) :=
  if negb (SystemAccountStorage.isExists (_chain ctx)) then Ok None
  else if SystemAccountStorage.isV1 (_chain ctx) then
    data ← SystemAccountStorage.getManyAsV1 (_chain ctx) (hash block) accounts;
    Ok (Some (toBalances data))
  else
    data ← SystemAccountStorage.getManyAsV3 (_chain ctx) (hash block) accounts;
    Ok (Some (toBalances data)).

Definition getBalances (ctx : Context) (block : SubstrateBlock)
  (accounts : list bytes) : result (option (list (option Balance.t))) :=
  getSystemAccountBalances ctx block accounts.

Definition saveAccounts : Context → World → SubstrateBlock → list bytes → result World :=
  saveAccounts encodeId getBalances.

(* The body of the inner loop, with its [item.kind == "event"] guard. *)
Definition processItem (ctx : Context) (s : JsSet.t) (item : Item)
  : result JsSet.t :=
  if String.eqb (kind item) "event"
  then processBalancesEventItem toHex classes ctx item s
  else Ok s.

Definition processBalances (ctx : Context) (w : World) : result World :=
  accountIdsHex ←
    forOf (fun s block => forOf (processItem ctx) (items block) s)
      (blocks ctx) JsSet.empty;
  match list.last (blocks ctx) with
  | None => Err TypeError
  | Some block =>
      let accountIdsU8 := decodeHex <$> JsSet.spread accountIdsHex in
      w1 ← saveRegularChainState ctx w (header block);
      saveAccounts ctx w1 (header block) accountIdsU8
  end.

End Versioned.
End Versioned.

(** ** Properties of the [Account] table *)

(** The row stored under key [k] carries that key, its [total] is the sum of
    [free] and [reserved], and the total is positive. *)
Definition row_ok (k : string) (a : Account.t) : bool :=
  bool_decide (Account.id a = k) &&
  match Account.free a, Account.reserved a, Account.total a with
  | Some f, Some r, Some t => (t =? f + r) && (0 <? t)
  | _, _, _ => false
  end.

Definition AccountInvariant (t : gmap string Account.t) : Prop :=
  map_Forall (fun k a => row_ok k a = true) t.

(** The row [saveAccounts] writes for a balance observed at a block. *)
Definition accountOf (id : string) (b : Balance.t) (block : SubstrateBlock)
  : Account.t :=
  Account.mk id (Some (Balance.free b)) (Some (Balance.reserved b))
    (Some (Balance.free b + Balance.reserved b)) (Some (height block)).

#[global] Instance AccountInvariant_dec t : Decision (AccountInvariant t).
Proof. unfold AccountInvariant. apply map_Forall_dec. intros k a. apply _. Defined.

(** The two maps built by the loop of [saveAccounts]. *)
Definition upsertSet (encodeId : bytes → string) (block : SubstrateBlock)
  (balances : list (option Balance.t)) (accountIds : list bytes)
  : JsMap.t Account.t :=
  (saveAccounts_loop encodeId block balances 0 accountIds JsMap.empty JsMap.empty).1.
Definition deletionSet (encodeId : bytes → string) (block : SubstrateBlock)
  (balances : list (option Balance.t)) (accountIds : list bytes)
  : JsMap.t Account.t :=
  (saveAccounts_loop encodeId block balances 0 accountIds JsMap.empty JsMap.empty).2.

(** Every value of a map of accounts carries its key as [id]. *)
Definition keyed (m : JsMap.t Account.t) : Prop :=
  Forall (fun kv => Account.id kv.2 = kv.1) m.

(** ** Vocabulary of the statements *)

(** [s.add(x)] for each [x] of [t], in order. *)
Definition adds (t : list string) (s : JsSet.t) : JsSet.t :=
  foldl (fun acc x => JsSet.add x acc) s t.

(** [x] is one of the accounts an item of [its] touches. *)
Definition touches (toHex : bytes → string) (classes : events.Classes)
  (ctx : Context) (its : list Item) (x : string) : Prop :=
  ∃ item u, item ∈ its ∧
            processBalancesEventItem toHex classes ctx item JsSet.empty = Ok u ∧
            x ∈ u.

(** The timestamp the scheduler starts from: the variable when it is set,
    else the timestamp of the most recent snapshot, else zero. *)
Inductive startsFrom (w : World) : option Z → Z → Prop :=
  | startsFrom_set t : startsFrom w (Some t) t
  | startsFrom_cold : chainStates (store w) = [] → startsFrom w None 0
  | startsFrom_latest r :
      r ∈ chainStates (store w) →
      (∀ r', r' ∈ chainStates (store w) →
             ChainState.timestamp r' ≤ ChainState.timestamp r) →
      startsFrom w None (ChainState.timestamp r).

(** Every member of the set is the hex form of some account. *)
Definition hexes (toHex : bytes → string) (s : JsSet.t) : Prop :=
  ∀ x, x ∈ s → ∃ a, x = toHex a.

(** The nine event names of the [switch] of [processBalancesEventItem]. *)
Definition supportedNames : list string :=
  [ "Balances.BalanceSet"; "Balances.Endowed"; "Balances.Deposit";
    "Balances.Reserved"; "Balances.Unreserved"; "Balances.Withdraw";
    "Balances.Slashed"; "Balances.Transfer"; "Balances.ReserveRepatriated" ]%string.

(** An item the versioned revision looks at: an event with one of the nine
    names. *)
Definition relevant (item : Item) : bool :=
  String.eqb (kind item) "event" && bool_decide (name item ∈ supportedNames).

(** Consecutive rows are at least [SAVE_PERIOD] apart, the first one from
    [t0]. *)
Fixpoint spaced (t0 : Z) (rows : list ChainState.t) : Prop :=
  match rows with
  | [] => True
  | r :: rows' =>
      Scheduled.SAVE_PERIOD ≤ ChainState.timestamp r - t0 ∧
      spaced (ChainState.timestamp r) rows'
  end.

(** The timestamp of the last of [rows], [t0] without rows. *)
Definition lastTimestamp (t0 : Z) (rows : list ChainState.t) : Z :=
  match last rows with
  | Some r => ChainState.timestamp r
  | None => t0
  end.

(** ** A small chain to run the processor on

    Three accounts, [alice] (free 30, reserved 20), [bobby] (nothing) and
    [carol] (free 7); stand-ins for the external codecs; event classes that
    read the account bytes straight from the event arguments and know the
    fingerprints ["v1"], ["v3100"] and ["v3110"]. *)

Module Demo.
Definition toHex : bytes → string := string_of_list_byte.
Definition decodeHex : string → bytes := list_byte_of_string.
Definition encodeId (a : bytes) : string := ("id:" ++ string_of_list_byte a)%string.

Definition hashV1 : string := SystemAccountStorage.hashV1.
Definition hashIssuance : string := BalancesTotalIssuanceStorage.hashV1.

Definition alice : bytes := list_byte_of_string "alice".
Definition bobby : bytes := list_byte_of_string "bobby".
Definition carol : bytes := list_byte_of_string "carol".

Definition info (free reserved : Z) : v1.AccountInfo :=
  v1.mkAccountInfo 0 0 1 (v1.mkAccountData free reserved 0 0).

Definition ledger (key : list bytes) : v1.AccountInfo :=
  match key with
  | [a] =>
      if String.eqb (string_of_list_byte a) "alice" then info 30 20
      else if String.eqb (string_of_list_byte a) "carol" then info 7 0
      else info 0 0
  | _ => info 0 0
  end.

(** [sysHash] and [issHash] are the fingerprints of [System.Account] and
    [Balances.TotalIssuance]; the batched read answers at most [limit]
    keys. *)
Definition chain (evHash : string) (sysHash issHash : option string)
  (limit : nat) : Chain :=
  mkChain (fun _ => evHash)
    (fun prefix _ => if String.eqb prefix "System" then sysHash else issHash)
    (fun _ _ _ => 1000)
    (fun _ _ _ keys => take limit (ledger <$> keys)).

Definition unary (cls : string) (ctx : Context) (e : Event)
  : events.EventData bytes events.Who :=
  let h := getEventHash (_chain ctx) (event_name e) in
  events.mkEventData cls
    (String.eqb h "v1") (event_args e)
    (String.eqb h "v3100") (event_args e)
    (String.eqb h "v3110") (events.mkWho (event_args e)).

Definition endowed (cls : string) (ctx : Context) (e : Event)
  : events.EventData bytes events.Endowed :=
  let h := getEventHash (_chain ctx) (event_name e) in
  events.mkEventData cls
    (String.eqb h "v1") (event_args e)
    (String.eqb h "v3100") (event_args e)
    (String.eqb h "v3110") (events.mkEndowed (event_args e)).

Definition binary (cls : string) (ctx : Context) (e : Event)
  : events.EventData (bytes * bytes) events.FromTo :=
  let h := getEventHash (_chain ctx) (event_name e) in
  let src := take 5 (event_args e) in
  let dst := drop 5 (event_args e) in
  events.mkEventData cls
    (String.eqb h "v1") (src, dst)
    (String.eqb h "v3100") (src, dst)
    (String.eqb h "v3110") (events.mkFromTo src dst).

Definition classes : events.Classes :=
  events.mkClasses
    (unary "BalancesBalanceSetEvent") (binary "BalancesTransferEvent")
    (endowed "BalancesEndowedEvent") (unary "BalancesDepositEvent")
    (unary "BalancesReservedEvent") (unary "BalancesUnreservedEvent")
    (unary "BalancesWithdrawEvent") (unary "BalancesSlashedEvent")
    (binary "BalancesReserveRepatriatedEvent").

Definition transfer (src dst : bytes) : Item :=
  mkItem "event" "Balances.Transfer" (mkEvent "Balances.Transfer" (src ++ dst)).
Definition deposit (who : bytes) : Item :=
  mkItem "event" "Balances.Deposit" (mkEvent "Balances.Deposit" who).

Definition block7 : SubstrateBlock :=
  mkBlock "0000000007-abcde" 7 "0xabcde" 43200000.

(** A store holding one row, for [bobby], written at block 3. *)
Definition bobbyRow : Account.t :=
  Account.mk "id:bobby" (Some 5) (Some 0) (Some 5) (Some 3).
Definition world0 : World :=
  mkWorld (mkStore {[ "id:bobby"%string := bobbyRow ]} [] []) [].
Definition emptyWorld : World := mkWorld (mkStore ∅ [] []) [].

(** Contexts: the usual one; one where the batched read answers a single
    key; one without [System.Account]; one whose [System.Account]
    fingerprint is none of the known ones. *)
Definition ctx (bs : list BlockData) : Context :=
  mkContext (chain "v1" (Some hashV1) (Some hashIssuance) 10) bs.
Definition ctxShort (bs : list BlockData) : Context :=
  mkContext (chain "v1" (Some hashV1) (Some hashIssuance) 1) bs.
Definition ctxNoAccounts (bs : list BlockData) : Context :=
  mkContext (chain "v1" None (Some hashIssuance) 10) bs.
Definition ctxUnknown (bs : list BlockData) : Context :=
  mkContext (chain "v1" (Some "00"%string) (Some hashIssuance) 10) bs.

(** Two windows touching [alice] and [carol]: three events in one, two in
    the other, in the opposite order. *)
Definition window1 : list Item := [transfer alice carol; deposit alice; deposit carol].
Definition window2 : list Item := [deposit carol; deposit alice].
(* what the ledger holds for an account *)
Definition balanceOf (a : bytes) : option Balance.t :=
  Some (Balance.mk (v1.free (v1.data (ledger [a])))
          (v1.reserved (v1.data (ledger [a])))).

(** A batch of one block, in which [alice] pays [carol]. *)
Definition batch : list BlockData :=
  [mkBlockData block7 [transfer alice carol]].
End Demo.

(** * Lemmas *)

(** ** Insertion-ordered maps *)

Section JsMapFacts.
Context {V : Type}.
Implicit Types (m : JsMap.t V) (k : string) (v : V).

Lemma JsMap_get_set_eq m k v : JsMap.get k (JsMap.set k v m) = Some v.
Proof.
  induction m as [|[k' v'] m IH]; simpl.
  - by rewrite decide_True.
  - destruct (decide (k = k')) as [->|Hne]; simpl.
    + by rewrite decide_True.
    + by rewrite decide_False.
Qed.

Lemma JsMap_get_set_ne m k k' v :
  k ≠ k' → JsMap.get k' (JsMap.set k v m) = JsMap.get k' m.
Proof.
  intros Hne. induction m as [|[k0 v0] m IH]; simpl.
  - by rewrite decide_False.
  - destruct (decide (k = k0)) as [->|Hk]; simpl.
    + by rewrite !decide_False.
    + by rewrite IH.
Qed.

Lemma JsMap_keys_set m k v k' :
  k' ∈ JsMap.keys (JsMap.set k v m) ↔ k' = k ∨ k' ∈ JsMap.keys m.
Proof.
  unfold JsMap.keys. induction m as [|[k0 v0] m IH]; simpl.
  - rewrite list_elem_of_singleton. split; [auto | intros [?|?%elem_of_nil]; done].
  - destruct (decide (k = k0)) as [->|Hk]; simpl.
    + rewrite !elem_of_cons. naive_solver.
    + rewrite !elem_of_cons, IH. naive_solver.
Qed.

Lemma JsMap_keys_NoDup_set m k v :
  NoDup (JsMap.keys m) → NoDup (JsMap.keys (JsMap.set k v m)).
Proof.
  induction m as [|[k0 v0] m IH]; simpl; intros Hnd.
  - apply NoDup_singleton.
  - apply NoDup_cons in Hnd as [Hk0 Hnd].
    destruct (decide (k = k0)) as [->|Hk]; simpl.
    + by apply NoDup_cons.
    + apply NoDup_cons. split; [|by apply IH].
      intros Hin. apply JsMap_keys_set in Hin as [?|?]; congruence.
Qed.

Lemma JsMap_get_None m k : JsMap.get k m = None ↔ k ∉ JsMap.keys m.
Proof.
  unfold JsMap.keys. induction m as [|[k0 v0] m IH]; simpl.
  - split; [intros _; apply not_elem_of_nil | done].
  - destruct (decide (k = k0)) as [->|Hk].
    + split; [done | intros []; apply elem_of_cons; by left].
    + rewrite IH, not_elem_of_cons. naive_solver.
Qed.

Lemma JsMap_values_set_Forall (P : string → V → Prop) m k v :
  P k v → Forall (fun kv => P kv.1 kv.2) m →
  Forall (fun kv => P kv.1 kv.2) (JsMap.set k v m).
Proof.
  intros Hv. induction m as [|[k0 v0] m IH]; simpl; intros Hm.
  - by constructor.
  - apply Forall_cons in Hm as [H0 Hm].
    destruct (decide (k = k0)); constructor; auto.
Qed.

End JsMapFacts.

(** ** [store.save] and [store.remove] over the values of a map *)

Lemma save_lookup (m : JsMap.t Account.t) (s : Store) (k : string) :
  keyed m → NoDup (JsMap.keys m) →
  accounts (StoreOps.save (JsMap.values m) s) !! k
  = match JsMap.get k m with Some a => Some a | None => accounts s !! k end.
Proof.
  unfold StoreOps.save, JsMap.values, JsMap.keys. simpl.
  generalize (accounts s). clear s.
  induction m as [|[k0 a0] m IH]; simpl; intros t Hk Hnd; [done|].
  apply Forall_cons in Hk as [Hid Hk]. simpl in Hid.
  apply NoDup_cons in Hnd as [Hfresh Hnd].
  rewrite IH by done. rewrite Hid.
  destruct (decide (k = k0)) as [->|Hne].
  - apply (JsMap_get_None m k0) in Hfresh. rewrite Hfresh.
    by rewrite lookup_insert_eq.
  - destruct (JsMap.get k m); [done|]. by rewrite lookup_insert_ne.
Qed.

Lemma remove_lookup (m : JsMap.t Account.t) (s : Store) (k : string) :
  keyed m →
  accounts (StoreOps.remove (JsMap.values m) s) !! k
  = if decide (k ∈ JsMap.keys m) then None else accounts s !! k.
Proof.
  unfold StoreOps.remove, JsMap.values, JsMap.keys. simpl.
  generalize (accounts s). clear s.
  induction m as [|[k0 a0] m IH]; intros t Hk.
  - simpl. destruct (decide (k ∈ [])) as [Hin|]; [by apply elem_of_nil in Hin | done].
  - apply Forall_cons in Hk as [Hid Hk]. simpl in Hid.
    change (((k0, a0) :: m).*2) with (a0 :: m.*2).
    change (((k0, a0) :: m).*1) with (k0 :: m.*1).
    simpl foldl. rewrite IH by done. clear IH. rewrite Hid.
    destruct (decide (k ∈ m.*1)) as [Hin|Hin];
      destruct (decide (k ∈ k0 :: m.*1)) as [Hin'|Hin']; try reflexivity.
    + exfalso. apply Hin'. apply elem_of_cons. by right.
    + apply elem_of_cons in Hin' as [->|?]; [apply lookup_delete_eq | done].
    + apply lookup_delete_ne. intros ->. apply Hin'. apply elem_of_cons. by left.
Qed.

(** ** The classification loop of [saveAccounts] *)

Section LoopFacts.
Variable encodeId : bytes → string.
Variable block : SubstrateBlock.
Variable balances : list (option Balance.t).

Abbreviation loop := (saveAccounts_loop encodeId block balances).
Abbreviation total b := (Balance.free b + Balance.reserved b).

Lemma loop_keyed rest : ∀ i acc del,
  keyed acc → keyed del →
  keyed (loop i rest acc del).1 ∧ keyed (loop i rest acc del).2.
Proof.
  induction rest as [|a rest IH]; intros i acc del Ha Hd; simpl; [done|].
  destruct (balanceAt balances i) as [b|]; [|by apply IH].
  destruct (0 <? total b); apply IH; try done;
    by apply (JsMap_values_set_Forall (fun k v => Account.id v = k)).
Qed.

Lemma loop_NoDup rest : ∀ i acc del,
  NoDup (JsMap.keys acc) → NoDup (JsMap.keys del) →
  NoDup (JsMap.keys (loop i rest acc del).1) ∧
  NoDup (JsMap.keys (loop i rest acc del).2).
Proof.
  induction rest as [|a rest IH]; intros i acc del Ha Hd; simpl; [done|].
  destruct (balanceAt balances i) as [b|]; [|by apply IH].
  destruct (0 <? total b); apply IH; try done; by apply JsMap_keys_NoDup_set.
Qed.

(** The keys marked for deletion are those already marked and the encoded
    ids of the entries whose total is not positive. *)
Lemma loop_deletions rest : ∀ i acc del k,
  k ∈ JsMap.keys (loop i rest acc del).2 ↔
  k ∈ JsMap.keys del ∨
  ∃ j a b, rest !! j = Some a ∧ balanceAt balances (i + j)%nat = Some b ∧
           total b ≤ 0 ∧ k = encodeId a.
Proof.
  induction rest as [|a rest IH]; intros i acc del k; simpl.
  - split; [by left | intros [?|(j & ? & ? & Hj & _)]; [done | by destruct j]].
  - destruct (balanceAt balances i) as [b|] eqn:Hb.
    + destruct (0 <? total b) eqn:Ht; rewrite IH.
      * apply Z.ltb_lt in Ht. split.
        -- intros [?|(j & a' & b' & Hj & Hb' & ? & ?)]; [by left|].
           right. exists (S j), a', b'. by rewrite Nat.add_succ_r.
        -- intros [?|(j & a' & b' & Hj & Hb' & ? & ?)]; [by left|].
           destruct j as [|j]; simpl in Hj.
           ++ rewrite Nat.add_0_r in Hb'. simplify_eq. lia.
           ++ right. exists j, a', b'. by rewrite Nat.add_succ_r in Hb'.
      * apply Z.ltb_ge in Ht. rewrite JsMap_keys_set. split.
        -- intros [[->|?]|(j & a' & b' & Hj & Hb' & ? & ?)].
           ++ right. exists 0%nat, a, b. by rewrite Nat.add_0_r.
           ++ by left.
           ++ right. exists (S j), a', b'. by rewrite Nat.add_succ_r.
        -- intros [?|(j & a' & b' & Hj & Hb' & ? & ?)]; [left; by right|].
           destruct j as [|j]; simpl in Hj.
           ++ left. left. by simplify_eq.
           ++ right. exists j, a', b'. by rewrite Nat.add_succ_r in Hb'.
    + rewrite IH. split.
      * intros [?|(j & a' & b' & Hj & Hb' & ? & ?)]; [by left|].
        right. exists (S j), a', b'. by rewrite Nat.add_succ_r.
      * intros [?|(j & a' & b' & Hj & Hb' & ? & ?)]; [by left|].
        destruct j as [|j]; simpl in Hj.
        -- rewrite Nat.add_0_r in Hb'. congruence.
        -- right. exists j, a', b'. by rewrite Nat.add_succ_r in Hb'.
Qed.

(** Every entry of the upsert map is either an earlier one or the row of
    an entry with a positive total. *)
Lemma loop_upserts_inv rest : ∀ i acc del k v,
  JsMap.get k (loop i rest acc del).1 = Some v →
  JsMap.get k acc = Some v ∨
  ∃ j a b, rest !! j = Some a ∧ balanceAt balances (i + j)%nat = Some b ∧
           0 < total b ∧ k = encodeId a ∧ v = accountOf k b block.
Proof.
  induction rest as [|a rest IH]; intros i acc del k v; simpl; [by left|].
  destruct (balanceAt balances i) as [b|] eqn:Hb.
  - destruct (0 <? total b) eqn:Ht; intros Hget; apply IH in Hget.
    + apply Z.ltb_lt in Ht.
      destruct Hget as [Hget|(j & a' & b' & Hj & Hb' & ? & ? & ?)].
      * destruct (decide (encodeId a = k)) as [<-|Hne].
        -- rewrite JsMap_get_set_eq in Hget. right.
           exists 0%nat, a, b. rewrite Nat.add_0_r. by simplify_eq.
        -- rewrite JsMap_get_set_ne in Hget by done. by left.
      * right. exists (S j), a', b'. by rewrite Nat.add_succ_r.
    + destruct Hget as [Hget|(j & a' & b' & Hj & Hb' & ? & ? & ?)]; [by left|].
      right. exists (S j), a', b'. by rewrite Nat.add_succ_r.
  - intros Hget; apply IH in Hget.
    destruct Hget as [Hget|(j & a' & b' & Hj & Hb' & ? & ? & ?)]; [by left|].
    right. exists (S j), a', b'. by rewrite Nat.add_succ_r.
Qed.

(** A key that no entry with a positive total encodes to keeps its
    binding. *)
Lemma loop_upserts_frame rest : ∀ i acc del k,
  (∀ j a b, rest !! j = Some a → balanceAt balances (i + j)%nat = Some b →
            0 < total b → encodeId a ≠ k) →
  JsMap.get k (loop i rest acc del).1 = JsMap.get k acc.
Proof.
  induction rest as [|a rest IH]; intros i acc del k Hk; simpl; [done|].
  assert (∀ j a' b, rest !! j = Some a' →
            balanceAt balances (S i + j)%nat = Some b →
            0 < total b → encodeId a' ≠ k) as Hk'.
  { intros j a' b' Hj Hb'. apply (Hk (S j)); [done|].
    by rewrite Nat.add_succ_r. }
  destruct (balanceAt balances i) as [b|] eqn:Hb; [|by apply IH].
  destruct (0 <? total b) eqn:Ht; rewrite IH by done; [|done].
  apply Z.ltb_lt in Ht. apply JsMap_get_set_ne.
  apply (Hk 0%nat a b); [done | by rewrite Nat.add_0_r | done].
Qed.

(** The last entry with a positive total that encodes to a key decides the
    row upserted under that key. *)
Lemma loop_upserts_last rest : ∀ i acc del j a b,
  rest !! j = Some a → balanceAt balances (i + j)%nat = Some b →
  0 < total b →
  (∀ j' a' b', (j < j')%nat → rest !! j' = Some a' →
               balanceAt balances (i + j')%nat = Some b' →
               0 < total b' → encodeId a' ≠ encodeId a) →
  JsMap.get (encodeId a) (loop i rest acc del).1
  = Some (accountOf (encodeId a) b block).
Proof.
  induction rest as [|a0 rest IH]; intros i acc del j a b Hj Hb Ht Hlater;
    [done|].
  destruct j as [|j]; simpl in Hj.
  - simplify_eq. rewrite Nat.add_0_r in Hb. simpl. rewrite Hb.
    apply Z.ltb_lt in Ht as Ht'. rewrite Ht'.
    rewrite loop_upserts_frame.
    + apply JsMap_get_set_eq.
    + intros j' a' b' Hj' Hb' Ht''.
      apply (Hlater (S j') a' b'); [lia|done| |done].
      by rewrite Nat.add_succ_r.
  - assert (JsMap.get (encodeId a) (loop (S i) rest
              match balanceAt balances i with
              | Some b0 => if 0 <? total b0
                           then JsMap.set (encodeId a0) (accountOf (encodeId a0) b0 block) acc
                           else acc
              | None => acc
              end
              match balanceAt balances i with
              | Some b0 => if 0 <? total b0 then del
                           else JsMap.set (encodeId a0)
                                  (Account.mk (encodeId a0) None None None None) del
              | None => del
              end).1 = Some (accountOf (encodeId a) b block)) as Hgoal.
    { apply (IH _ _ _ j); [done| by rewrite Nat.add_succ_r in Hb |done|].
      intros j' a' b' Hlt Hj' Hb'. apply (Hlater (S j') a' b'); [lia|done|].
      by rewrite Nat.add_succ_r. }
    simpl. destruct (balanceAt balances i) as [b0|]; [|done].
    by destruct (0 <? total b0).
Qed.

End LoopFacts.

(** ** The store after [saveAccounts] *)

Section SaveAccountsFacts.
Variable encodeId : bytes → string.
Variable getBalances :
  Context → SubstrateBlock → list bytes →
  result (option (list (option Balance.t))).

Abbreviation upserts block balances accountIds :=
  (saveAccounts_loop encodeId block balances 0 accountIds JsMap.empty JsMap.empty).1.
Abbreviation deletions block balances accountIds :=
  (saveAccounts_loop encodeId block balances 0 accountIds JsMap.empty JsMap.empty).2.

Lemma saveAccounts_fetched ctx w block accountIds balances :
  getBalances ctx block accountIds = Ok (Some balances) →
  saveAccounts encodeId getBalances ctx w block accountIds
  = Ok (mkWorld
          (StoreOps.remove (JsMap.values (deletions block balances accountIds))
             (StoreOps.save (JsMap.values (upserts block balances accountIds))
                (store w)))
          (log w ++ [LogAccounts
                       (JsMap.size (upserts block balances accountIds))
                       (JsMap.size (deletions block balances accountIds))])).
Proof.
  intros Hb. unfold saveAccounts. rewrite Hb. simpl.
  by destruct (saveAccounts_loop _ _ _ _ _ _ _).
Qed.

Lemma saveAccounts_inv ctx w block accountIds w' :
  saveAccounts encodeId getBalances ctx w block accountIds = Ok w' →
  (getBalances ctx block accountIds = Ok None ∧
   w' = mkWorld (store w) (log w ++ [LogWarn "No balances"])) ∨
  (∃ balances, getBalances ctx block accountIds = Ok (Some balances)).
Proof.
  unfold saveAccounts.
  destruct (getBalances ctx block accountIds) as [[bs|]|e]; simpl.
  - intros _. right. by exists bs.
  - intros [= <-]. by left.
  - done.
Qed.

(** A key marked for deletion has no row afterwards; otherwise the row is
    the upserted one, if any, and else the one that was there. *)
Lemma saveAccounts_lookup ctx w block accountIds balances w' k :
  getBalances ctx block accountIds = Ok (Some balances) →
  saveAccounts encodeId getBalances ctx w block accountIds = Ok w' →
  accounts (store w') !! k
  = if decide (k ∈ JsMap.keys (deletions block balances accountIds)) then None
    else match JsMap.get k (upserts block balances accountIds) with
         | Some a => Some a
         | None => accounts (store w) !! k
         end.
Proof.
  intros Hb Hs. rewrite (saveAccounts_fetched _ _ _ _ _ Hb) in Hs.
  injection Hs as <-. cbn [store].
  destruct (loop_keyed encodeId block balances accountIds 0 [] [])
    as [Hka Hkd]; [constructor..|].
  destruct (loop_NoDup encodeId block balances accountIds 0 [] [])
    as [Hna _]; [constructor..|].
  rewrite remove_lookup by done. by rewrite save_lookup.
Qed.

Lemma accountOf_row_ok k b block :
  0 < Balance.free b + Balance.reserved b → row_ok k (accountOf k b block) = true.
Proof.
  intros Ht. unfold row_ok, accountOf. simpl.
  rewrite bool_decide_eq_true_2 by done. simpl.
  rewrite Z.eqb_refl. simpl. by apply Z.ltb_lt.
Qed.

Lemma saveAccounts_invariant ctx w block accountIds w' :
  AccountInvariant (accounts (store w)) →
  saveAccounts encodeId getBalances ctx w block accountIds = Ok w' →
  AccountInvariant (accounts (store w')).
Proof.
  intros Hinv Hs.
  destruct (saveAccounts_inv _ _ _ _ _ Hs) as [[_ ->]|[bs Hb]]; [done|].
  intros k a Hk. rewrite (saveAccounts_lookup _ _ _ _ _ _ k Hb Hs) in Hk.
  destruct (decide _); [done|].
  destruct (JsMap.get k _) as [a'|] eqn:Hget; [|by apply Hinv].
  injection Hk as ->.
  apply loop_upserts_inv in Hget as [?|(j & a0 & b & _ & _ & Ht & _ & ->)];
    [done|].
  by apply accountOf_row_ok.
Qed.

Lemma saveAccounts_zero_deleted ctx w block accountIds balances w' i a b :
  getBalances ctx block accountIds = Ok (Some balances) →
  saveAccounts encodeId getBalances ctx w block accountIds = Ok w' →
  accountIds !! i = Some a → balanceAt balances i = Some b →
  Balance.free b + Balance.reserved b ≤ 0 →
  encodeId a ∈ JsMap.keys (deletions block balances accountIds) ∧
  accounts (store w') !! encodeId a = None.
Proof.
  intros Hb Hs Hi Hbi Ht.
  assert (encodeId a ∈ JsMap.keys (deletions block balances accountIds)) as Hin.
  { apply loop_deletions. right. by exists i, a, b. }
  split; [done|].
  rewrite (saveAccounts_lookup _ _ _ _ _ _ _ Hb Hs). by rewrite decide_True.
Qed.

End SaveAccountsFacts.

(** ** Distinct encoded ids *)

Lemma NoDup_encoded_lookup (encodeId : bytes → string) (ids : list bytes) i j a a' :
  NoDup (encodeId <$> ids) →
  ids !! i = Some a → ids !! j = Some a' → encodeId a = encodeId a' →
  i = j ∧ a = a'.
Proof.
  intros Hnd Hi Hj Heq.
  assert (i = j) as ->.
  { eapply NoDup_lookup; [exact Hnd| |].
    - rewrite list_lookup_fmap, Hi. reflexivity.
    - rewrite list_lookup_fmap, Hj. simpl. by rewrite Heq. }
  split; [done | congruence].
Qed.

Section Classification.
Variable encodeId : bytes → string.
Variable block : SubstrateBlock.
Variable balances : list (option Balance.t).
Variable accountIds : list bytes.
Hypothesis distinct : NoDup (encodeId <$> accountIds).

Lemma upsertSet_positive i a b :
  accountIds !! i = Some a → balanceAt balances i = Some b →
  0 < Balance.free b + Balance.reserved b →
  JsMap.get (encodeId a) (upsertSet encodeId block balances accountIds)
  = Some (accountOf (encodeId a) b block).
Proof.
  intros Hi Hb Ht. unfold upsertSet.
  apply (loop_upserts_last _ _ _ _ _ _ _ i); [done..|].
  intros j' a' b' Hlt Hj' _ _ Heq.
  destruct (NoDup_encoded_lookup encodeId accountIds j' i a' a); auto; lia.
Qed.

Lemma upsertSet_not_positive i a b :
  accountIds !! i = Some a → balanceAt balances i = Some b →
  Balance.free b + Balance.reserved b ≤ 0 →
  JsMap.get (encodeId a) (upsertSet encodeId block balances accountIds) = None.
Proof.
  intros Hi Hb Ht. unfold upsertSet.
  rewrite loop_upserts_frame; [done|].
  intros j a' b' Hj Hb' Ht' Heq. simpl in Hb'.
  destruct (NoDup_encoded_lookup encodeId accountIds j i a' a) as [-> ->]; auto.
  simplify_eq. lia.
Qed.

Lemma upsertSet_absent i a :
  accountIds !! i = Some a → balanceAt balances i = None →
  JsMap.get (encodeId a) (upsertSet encodeId block balances accountIds) = None.
Proof.
  intros Hi Hb. unfold upsertSet.
  rewrite loop_upserts_frame; [done|].
  intros j a' b' Hj Hb' Ht' Heq. simpl in Hb'.
  destruct (NoDup_encoded_lookup encodeId accountIds j i a' a) as [-> ->]; auto.
  congruence.
Qed.

Lemma deletionSet_elem i a :
  accountIds !! i = Some a →
  encodeId a ∈ JsMap.keys (deletionSet encodeId block balances accountIds) ↔
  ∃ b, balanceAt balances i = Some b ∧ Balance.free b + Balance.reserved b ≤ 0.
Proof.
  intros Hi. unfold deletionSet. rewrite loop_deletions. simpl. split.
  - intros [Hin|(j & a' & b' & Hj & Hb' & Ht & Heq)].
    + by apply elem_of_nil in Hin.
    + destruct (NoDup_encoded_lookup encodeId accountIds i j a a') as [-> ->];
        auto. by exists b'.
  - intros (b & Hb & Ht). right. by exists i, a, b.
Qed.

End Classification.

(** * The reconciliation claims *)

(** C1.  A successful [saveAccounts] (of either revision: both are
    [saveAccounts] at their own [getBalances]) preserves the invariant of
    the [Account] table: every row has [total = free + reserved] and
    [total > 0].  Moreover an account whose fetched total is 0 has no row
    afterwards. *)
Theorem saveAccounts_preserves_account_invariant
  (encodeId : bytes → string)
  (getBalances : Context → SubstrateBlock → list bytes →
                 result (option (list (option Balance.t))))
  (ctx : Context) (w : World) (block : SubstrateBlock)
  (accountIds : list bytes) (w' : World) :
  AccountInvariant (accounts (store w)) →
  saveAccounts encodeId getBalances ctx w block accountIds = Ok w' →
  AccountInvariant (accounts (store w')) ∧
  ∀ balances i a b,
    getBalances ctx block accountIds = Ok (Some balances) →
    accountIds !! i = Some a → balanceAt balances i = Some b →
    Balance.free b + Balance.reserved b = 0 →
    accounts (store w') !! encodeId a = None.
Proof.
  intros Hinv Hs. split.
  - by eapply saveAccounts_invariant.
  - intros bs i a b Hb Hi Hbi Ht.
    eapply saveAccounts_zero_deleted; eauto. lia.
Qed.

Lemma saveAccounts_preserves_account_invariant_witness :
  AccountInvariant
    (<["id:alice"%string :=
         Account.mk "id:alice" (Some 30) (Some 20) (Some 50) (Some 7)]> ∅) ∧
  (<["id:alice"%string :=
       Account.mk "id:alice" (Some 30) (Some 20) (Some 50) (Some 7)]> ∅
     : gmap string Account.t) !! Demo.encodeId Demo.bobby = None.
Proof.
  pose proof (saveAccounts_preserves_account_invariant Demo.encodeId
    (Versioned.getBalances) (Demo.ctx []) Demo.world0 Demo.block7
    [Demo.alice; Demo.bobby]
    (mkWorld
       (mkStore (<["id:alice"%string :=
                     Account.mk "id:alice" (Some 30) (Some 20) (Some 50) (Some 7)]> ∅)
          [] [])
       [LogAccounts 1 1])) as [Hinv Hzero].
  - apply (bool_decide_unpack _). vm_compute. reflexivity.
  - vm_compute. reflexivity.
  - split; [exact Hinv|].
    apply (Hzero [Some (Balance.mk 30 20); Some (Balance.mk 0 0)] 1%nat
             Demo.bobby (Balance.mk 0 0)); reflexivity.
Defined.

(** C2.  When balances were fetched, [saveAccounts] succeeds, and for every
    requested account (the encoded ids being distinct, as they are for ids
    spread from a set) with a fetched entry: the total is [free + reserved];
    a positive total puts the account in the upsert map and leaves, under
    its id, the row with exactly that free, reserved and total and the
    block's height; a zero total marks it for deletion, and no row is left
    under its id, whether there was one or not. *)
Theorem saveAccounts_upserts_positive_deletes_zero
  (encodeId : bytes → string)
  (getBalances : Context → SubstrateBlock → list bytes →
                 result (option (list (option Balance.t))))
  (ctx : Context) (w : World) (block : SubstrateBlock)
  (accountIds : list bytes) (balances : list (option Balance.t)) :
  getBalances ctx block accountIds = Ok (Some balances) →
  NoDup (encodeId <$> accountIds) →
  ∃ w', saveAccounts encodeId getBalances ctx w block accountIds = Ok w' ∧
    ∀ i a b,
      accountIds !! i = Some a → balanceAt balances i = Some b →
      let total := Balance.free b + Balance.reserved b in
      let row := Account.mk (encodeId a) (Some (Balance.free b))
                   (Some (Balance.reserved b)) (Some total)
                   (Some (height block)) in
      (0 < total →
         JsMap.get (encodeId a) (upsertSet encodeId block balances accountIds)
           = Some row ∧
         (encodeId a ∉ JsMap.keys (deletionSet encodeId block balances accountIds)) ∧
         accounts (store w') !! encodeId a = Some row) ∧
      (total = 0 →
         encodeId a ∈ JsMap.keys (deletionSet encodeId block balances accountIds) ∧
         JsMap.get (encodeId a) (upsertSet encodeId block balances accountIds)
           = None ∧
         accounts (store w') !! encodeId a = None).
Proof.
  intros Hb Hnd. eexists. split; [by apply saveAccounts_fetched|].
  intros i a b Hi Hbi total row.
  pose proof (saveAccounts_fetched encodeId getBalances ctx w _ _ _ Hb) as Hs.
  split; intros Ht.
  - assert (encodeId a ∉
              JsMap.keys (deletionSet encodeId block balances accountIds)) as Hnot.
    { rewrite (deletionSet_elem _ _ _ _ Hnd i a Hi).
      intros (b' & Hb' & Ht'). simplify_eq. subst total. lia. }
    pose proof (upsertSet_positive _ block _ _ Hnd _ _ _ Hi Hbi Ht) as Hup.
    split; [exact Hup|]. split; [exact Hnot|].
    rewrite (saveAccounts_lookup _ _ _ _ _ _ _ _ (encodeId a) Hb Hs).
    unfold deletionSet in Hnot. rewrite decide_False by exact Hnot.
    unfold upsertSet in Hup. by rewrite Hup.
  - assert (Balance.free b + Balance.reserved b ≤ 0) as Hle by (subst total; lia).
    destruct (saveAccounts_zero_deleted _ _ _ _ _ _ _ _ _ _ _ Hb Hs Hi Hbi Hle)
      as [Hin Hnone].
    split; [exact Hin|]. split; [|exact Hnone].
    by eapply upsertSet_not_positive.
Qed.

Lemma saveAccounts_upserts_positive_deletes_zero_witness :
  ∃ w', Versioned.saveAccounts Demo.encodeId (Demo.ctx []) Demo.world0
          Demo.block7 [Demo.alice; Demo.bobby] = Ok w' ∧
        accounts (store w') !! "id:alice"%string
          = Some (Account.mk "id:alice" (Some 30) (Some 20) (Some 50) (Some 7)) ∧
        accounts (store w') !! "id:bobby"%string = None.
Proof.
  destruct (saveAccounts_upserts_positive_deletes_zero Demo.encodeId
    Versioned.getBalances (Demo.ctx []) Demo.world0 Demo.block7
    [Demo.alice; Demo.bobby]
    [Some (Balance.mk 30 20); Some (Balance.mk 0 0)]) as (w' & Hs & Hrows).
  - vm_compute. reflexivity.
  - apply (bool_decide_unpack _). vm_compute. reflexivity.
  - exists w'. split; [exact Hs|]. split.
    + apply (Hrows 0%nat Demo.alice (Balance.mk 30 20)); [reflexivity..|].
      simpl. lia.
    + apply (Hrows 1%nat Demo.bobby (Balance.mk 0 0)); reflexivity.
Defined.

(** C5.  When [System.Account] is not defined at the block's runtime, the
    fetch of both revisions returns the "no balances" value, and
    [saveAccounts] completes without an error, logs a warning and leaves
    the store as it was: nothing is upserted and nothing is deleted. *)
Theorem missing_storage_item_skips_reconciliation
  (encodeId : bytes → string) (ctx : Context) (w : World)
  (block : SubstrateBlock) (accountIds : list bytes) :
  getStorageItemTypeHash (_chain ctx) "System" "Account" = None →
  Scheduled.getSystemAccountBalances ctx block accountIds = Ok None ∧
  Versioned.getSystemAccountBalances ctx block accountIds = Ok None ∧
  Scheduled.saveAccounts encodeId ctx w block accountIds
    = Ok (mkWorld (store w) (log w ++ [LogWarn "No balances"])) ∧
  Versioned.saveAccounts encodeId ctx w block accountIds
    = Ok (mkWorld (store w) (log w ++ [LogWarn "No balances"])).
Proof.
  intros Hnone.
  assert (SystemAccountStorage.isExists (_chain ctx) = false) as Hex.
  { unfold SystemAccountStorage.isExists. rewrite Hnone.
    by apply bool_decide_eq_false_2; intros []. }
  unfold Scheduled.saveAccounts, Versioned.saveAccounts, saveAccounts,
    Scheduled.getBalances, Versioned.getBalances,
    Scheduled.getSystemAccountBalances, Versioned.getSystemAccountBalances.
  rewrite Hex. simpl. done.
Qed.

Lemma missing_storage_item_skips_reconciliation_witness :
  Versioned.saveAccounts Demo.encodeId (Demo.ctxNoAccounts []) Demo.world0
    Demo.block7 [Demo.alice; Demo.bobby]
  = Ok (mkWorld (store Demo.world0) [LogWarn "No balances"]).
Proof.
  apply (missing_storage_item_skips_reconciliation Demo.encodeId
           (Demo.ctxNoAccounts []) Demo.world0 Demo.block7
           [Demo.alice; Demo.bobby]).
  reflexivity.
Defined.

(** C9.  A requested account whose entry in the fetched array is absent is
    in neither map of the reconciliation, and the row under its id (or the
    absence of one) is what it was before the call. *)
Theorem absent_balance_entry_leaves_row_unchanged
  (encodeId : bytes → string)
  (getBalances : Context → SubstrateBlock → list bytes →
                 result (option (list (option Balance.t))))
  (ctx : Context) (w : World) (block : SubstrateBlock)
  (accountIds : list bytes) (balances : list (option Balance.t))
  (w' : World) (i : nat) (a : bytes) :
  getBalances ctx block accountIds = Ok (Some balances) →
  saveAccounts encodeId getBalances ctx w block accountIds = Ok w' →
  NoDup (encodeId <$> accountIds) →
  accountIds !! i = Some a → balanceAt balances i = None →
  JsMap.get (encodeId a) (upsertSet encodeId block balances accountIds) = None ∧
  (encodeId a ∉ JsMap.keys (deletionSet encodeId block balances accountIds)) ∧
  accounts (store w') !! encodeId a = accounts (store w) !! encodeId a.
Proof.
  intros Hb Hs Hnd Hi Hbi.
  pose proof (upsertSet_absent _ block _ _ Hnd _ _ Hi Hbi) as Hup.
  assert (encodeId a ∉
            JsMap.keys (deletionSet encodeId block balances accountIds)) as Hnot.
  { rewrite (deletionSet_elem _ _ _ _ Hnd i a Hi).
    intros (b' & Hb' & _). congruence. }
  split; [exact Hup|]. split; [exact Hnot|].
  rewrite (saveAccounts_lookup _ _ _ _ _ _ _ _ (encodeId a) Hb Hs).
  unfold deletionSet in Hnot. rewrite decide_False by exact Hnot.
  unfold upsertSet in Hup. by rewrite Hup.
Qed.

Lemma absent_balance_entry_leaves_row_unchanged_witness :
  accounts (store (mkWorld
     (mkStore (<["id:alice"%string :=
                   Account.mk "id:alice" (Some 30) (Some 20) (Some 50) (Some 7)]>
                 {[ "id:bobby"%string := Demo.bobbyRow ]}) [] [])
     [LogAccounts 1 0])) !! Demo.encodeId Demo.bobby
  = Some Demo.bobbyRow.
Proof.
  refine (eq_trans (proj2 (proj2 (absent_balance_entry_leaves_row_unchanged
    Demo.encodeId Scheduled.getBalances (Demo.ctxShort []) Demo.world0
    Demo.block7 [Demo.alice; Demo.bobby] [Some (Balance.mk 30 20)] _
    1%nat Demo.bobby _ _ _ _ _))) _).
  - vm_compute. reflexivity.
  - vm_compute. reflexivity.
  - apply (bool_decide_unpack _). vm_compute. reflexivity.
  - reflexivity.
  - reflexivity.
  - vm_compute. reflexivity.
Defined.

(** C10.  With distinct encoded ids, no id is in both the upsert map and
    the deletion map, and every requested account with a fetched entry is
    in exactly one of them. *)
Theorem upserts_and_deletions_are_disjoint
  (encodeId : bytes → string) (block : SubstrateBlock)
  (balances : list (option Balance.t)) (accountIds : list bytes) :
  NoDup (encodeId <$> accountIds) →
  (∀ k, ¬ (k ∈ JsMap.keys (upsertSet encodeId block balances accountIds) ∧
           k ∈ JsMap.keys (deletionSet encodeId block balances accountIds))) ∧
  ∀ i a b,
    accountIds !! i = Some a → balanceAt balances i = Some b →
    (encodeId a ∈ JsMap.keys (upsertSet encodeId block balances accountIds) ∧
     encodeId a ∉ JsMap.keys (deletionSet encodeId block balances accountIds)) ∨
    (encodeId a ∈ JsMap.keys (deletionSet encodeId block balances accountIds) ∧
     encodeId a ∉ JsMap.keys (upsertSet encodeId block balances accountIds)).
Proof.
  intros Hnd. split.
  - intros k [Hup Hdel].
    destruct (JsMap.get k (upsertSet encodeId block balances accountIds))
      as [v|] eqn:Hget; [|by apply JsMap_get_None in Hget].
    unfold upsertSet in Hget.
    apply loop_upserts_inv in Hget
      as [?|(j & a & b & Hj & Hb & Ht & -> & _)]; [done|].
    simpl in Hb.
    apply (deletionSet_elem _ _ _ _ Hnd j a Hj) in Hdel as (b' & Hb' & Ht').
    simplify_eq. lia.
  - intros i a b Hi Hb.
    destruct (decide (0 < Balance.free b + Balance.reserved b)) as [Ht|Ht].
    + left. split.
      * apply dec_stable. rewrite <- JsMap_get_None.
        by rewrite (upsertSet_positive _ block _ _ Hnd _ _ _ Hi Hb Ht).
      * rewrite (deletionSet_elem _ _ _ _ Hnd i a Hi).
        intros (b' & Hb' & Ht'). simplify_eq. lia.
    + right. split.
      * apply (deletionSet_elem _ _ _ _ Hnd i a Hi). exists b. split; [done|lia].
      * apply JsMap_get_None.
        apply (upsertSet_not_positive _ block _ _ Hnd i a b); [done..|lia].
Qed.

Lemma upserts_and_deletions_are_disjoint_witness :
  ¬ ("id:alice"%string ∈ JsMap.keys (upsertSet Demo.encodeId Demo.block7
        [Some (Balance.mk 30 20); Some (Balance.mk 0 0)] [Demo.alice; Demo.bobby]) ∧
     "id:alice"%string ∈ JsMap.keys (deletionSet Demo.encodeId Demo.block7
        [Some (Balance.mk 30 20); Some (Balance.mk 0 0)] [Demo.alice; Demo.bobby])).
Proof.
  apply (upserts_and_deletions_are_disjoint Demo.encodeId Demo.block7
           [Some (Balance.mk 30 20); Some (Balance.mk 0 0)]
           [Demo.alice; Demo.bobby]).
  apply (bool_decide_unpack _). vm_compute. reflexivity.
Defined.

(** * The chain-state record *)

Lemma or_zero_Some (v : Z) : or_zero (Some v) = v.
Proof. simpl. destruct (v =? 0) eqn:E; [by apply Z.eqb_eq in E | done]. Qed.

Lemma getChainState_eval (ctx : Context) (w : World) (block : SubstrateBlock) :
  match getStorageItemTypeHash (_chain ctx) "Balances" "TotalIssuance" with
  | None =>
      getChainState ctx w block
      = Ok (ChainState.mk (id block) (timestamp block) (height block) 0
              (Z.of_nat (size (accounts (store w)))))
  | Some h =>
      if decide (h = BalancesTotalIssuanceStorage.hashV1) then
        getChainState ctx w block
        = Ok (ChainState.mk (id block) (timestamp block) (height block)
                (getStorage (_chain ctx) (hash block) "Balances" "TotalIssuance")
                (Z.of_nat (size (accounts (store w)))))
      else
        getChainState ctx w block
        = Err (UnknownVersionError "BalancesTotalIssuanceStorage")
  end.
Proof.
  unfold getChainState, getTotalIssuance, BalancesTotalIssuanceStorage.getAsV1,
    BalancesTotalIssuanceStorage.isExists, BalancesTotalIssuanceStorage.isV1.
  destruct (getStorageItemTypeHash _ _ _) as [h|]; [|reflexivity].
  rewrite bool_decide_eq_true_2 by done. simpl.
  destruct (decide (h = BalancesTotalIssuanceStorage.hashV1)) as [->|Hne].
  - rewrite bool_decide_eq_true_2 by done. simpl.
    destruct (getStorage _ _ _ _ =? 0) eqn:E; [|done].
    apply Z.eqb_eq in E. by rewrite E.
  - rewrite bool_decide_eq_false_2; [done|]. intros [= ->]. by apply Hne.
Qed.

(** C8.  [getChainState] is determined by the fingerprint of
    [Balances.TotalIssuance]: when the item is not defined, or is defined
    with the known fingerprint, the record has the block's [id], its
    timestamp and its height, the number of rows of the [Account] table as
    holder count, and as issuance 0, respectively the storage value read at
    the block; with any other fingerprint no record is computed and
    [UnknownVersionError] is thrown. *)
Theorem getChainState_record (ctx : Context) (w : World) (block : SubstrateBlock) :
  match getStorageItemTypeHash (_chain ctx) "Balances" "TotalIssuance" with
  | None =>
      getChainState ctx w block
      = Ok (ChainState.mk (id block) (timestamp block) (height block) 0
              (Z.of_nat (size (accounts (store w)))))
  | Some h =>
      if decide (h = BalancesTotalIssuanceStorage.hashV1) then
        getChainState ctx w block
        = Ok (ChainState.mk (id block) (timestamp block) (height block)
                (getStorage (_chain ctx) (hash block) "Balances" "TotalIssuance")
                (Z.of_nat (size (accounts (store w)))))
      else
        getChainState ctx w block
        = Err (UnknownVersionError "BalancesTotalIssuanceStorage")
  end.
Proof. apply getChainState_eval. Qed.

(** * Unknown runtime fingerprints *)

(** The event extractors and the issuance reader end in a [throw] of
    [UnknownVersionError] when no known version matches. *)
Section UnknownEventVersion.
Variable toHex : bytes → string.
Variable classes : events.Classes.
Variables (ctx : Context) (item : Item) (s : JsSet.t).

Local Ltac unknown_version Hn H1 H2 :=
  unfold processBalancesEventItem; rewrite Hn; simpl;
  unfold getBalanceSetAccount, getEndowedAccount, getDepositAccount,
    getReservedAccount, getUnreservedAccount, getWithdrawAccount,
    getSlashedAccount, getTransferAccounts, getReserveRepatriatedAccounts;
  rewrite H1, H2; reflexivity.

Lemma BalanceSet_unknown_version :
  name item = "Balances.BalanceSet"%string →
  events.isV1 (events.BalancesBalanceSetEvent classes ctx (event item)) = false →
  events.isV3110 (events.BalancesBalanceSetEvent classes ctx (event item)) = false →
  processBalancesEventItem toHex classes ctx item s
  = Err (UnknownVersionError
           (events.constructor_name
              (events.BalancesBalanceSetEvent classes ctx (event item)))).
Proof. intros Hn H1 H2. unknown_version Hn H1 H2. Qed.

Lemma Transfer_unknown_version :
  name item = "Balances.Transfer"%string →
  events.isV1 (events.BalancesTransferEvent classes ctx (event item)) = false →
  events.isV3110 (events.BalancesTransferEvent classes ctx (event item)) = false →
  processBalancesEventItem toHex classes ctx item s
  = Err (UnknownVersionError
           (events.constructor_name
              (events.BalancesTransferEvent classes ctx (event item)))).
Proof. intros Hn H1 H2. unknown_version Hn H1 H2. Qed.

Lemma Withdraw_unknown_version :
  name item = "Balances.Withdraw"%string →
  events.isV3100 (events.BalancesWithdrawEvent classes ctx (event item)) = false →
  events.isV3110 (events.BalancesWithdrawEvent classes ctx (event item)) = false →
  processBalancesEventItem toHex classes ctx item s
  = Err (UnknownVersionError
           (events.constructor_name
              (events.BalancesWithdrawEvent classes ctx (event item)))).
Proof. intros Hn H1 H2. unknown_version Hn H1 H2. Qed.

End UnknownEventVersion.

Lemma getTotalIssuance_unknown_version (ctx : Context) (block : SubstrateBlock) h :
  getStorageItemTypeHash (_chain ctx) "Balances" "TotalIssuance" = Some h →
  h ≠ BalancesTotalIssuanceStorage.hashV1 →
  getTotalIssuance ctx block = Err (UnknownVersionError "BalancesTotalIssuanceStorage").
Proof.
  intros Hh Hne.
  unfold getTotalIssuance, BalancesTotalIssuanceStorage.isExists,
    BalancesTotalIssuanceStorage.isV1. rewrite Hh.
  rewrite bool_decide_eq_true_2 by done. simpl.
  rewrite bool_decide_eq_false_2; [done | by intros [= ->]].
Qed.

(** The reader of [System.Account] of the versioned revision takes its
    [else] branch for every fingerprint other than V1, and it is the
    [assert] inside [getManyAsV3] that stops an unknown one. *)
Lemma Versioned_unknown_account_fingerprint (ctx : Context)
  (block : SubstrateBlock) (accounts : list bytes) h :
  getStorageItemTypeHash (_chain ctx) "System" "Account" = Some h →
  h ≠ SystemAccountStorage.hashV1 → h ≠ SystemAccountStorage.hashV3 →
  Versioned.getSystemAccountBalances ctx block accounts = Err AssertionError.
Proof.
  intros Hh H1 H3.
  unfold Versioned.getSystemAccountBalances, SystemAccountStorage.getManyAsV3,
    SystemAccountStorage.isExists, SystemAccountStorage.isV1,
    SystemAccountStorage.isV3. rewrite Hh.
  rewrite bool_decide_eq_true_2 by done. simpl.
  rewrite !bool_decide_eq_false_2; [done | by intros [= ->] | by intros [= ->]].
Qed.

(** The reader of the scheduling revision never looks at the fingerprint. *)
Lemma Scheduled_ignores_account_fingerprint (ctx : Context)
  (block : SubstrateBlock) (accounts : list bytes) h :
  getStorageItemTypeHash (_chain ctx) "System" "Account" = Some h →
  Scheduled.getSystemAccountBalances ctx block accounts
  = Ok (Some (toBalances
                (queryStorage (_chain ctx) (hash block) "System" "Account"
                   ((fun a => [a]) <$> accounts)))).
Proof.
  intros Hh.
  unfold Scheduled.getSystemAccountBalances, SystemAccountStorage.isExists.
  rewrite Hh. by rewrite bool_decide_eq_true_2.
Qed.

(** C3, at a chain whose [System.Account] carries the fingerprint ["00"],
    neither V1 nor V3: the versioned revision stops with [AssertionError],
    not with [UnknownVersionError]; the scheduling revision decodes the
    answer all the same and reconciles with it. *)
Theorem unknown_account_fingerprint_raises_no_UnknownVersionError :
  getStorageItemTypeHash (_chain (Demo.ctxUnknown [])) "System" "Account"
    = Some "00"%string ∧
  Versioned.getSystemAccountBalances (Demo.ctxUnknown []) Demo.block7
    [Demo.alice; Demo.bobby] = Err AssertionError ∧
  Scheduled.getSystemAccountBalances (Demo.ctxUnknown []) Demo.block7
    [Demo.alice; Demo.bobby]
    = Ok (Some [Some (Balance.mk 30 20); Some (Balance.mk 0 0)]) ∧
  Scheduled.saveAccounts Demo.encodeId (Demo.ctxUnknown []) Demo.world0
    Demo.block7 [Demo.alice; Demo.bobby]
    = Ok (mkWorld
            (mkStore {[ "id:alice"%string :=
                          Account.mk "id:alice" (Some 30) (Some 20) (Some 50)
                            (Some 7) ]} [] [])
            [LogAccounts 1 1]).
Proof. repeat split; vm_compute; reflexivity. Qed.

(** * Snapshots *)

Lemma getChainState_inv (ctx : Context) (w : World) (block : SubstrateBlock) row :
  getChainState ctx w block = Ok row →
  ChainState.id row = id block ∧
  ChainState.timestamp row = timestamp block ∧
  ChainState.blockNumber row = height block ∧
  ChainState.tokenHolders row = Z.of_nat (size (accounts (store w))).
Proof.
  unfold getChainState. destruct (getTotalIssuance ctx block); simpl; [|done].
  by intros [= <-].
Qed.

Lemma saveRegularChainState_inv (ctx : Context) (w : World)
  (block : SubstrateBlock) w' :
  saveRegularChainState ctx w block = Ok w' →
  ∃ row, getChainState ctx w block = Ok row ∧
         accounts (store w') = accounts (store w) ∧
         chainStates (store w') = chainStates (store w) ++ [row] ∧
         currentChainStates (store w') = currentChainStates (store w).
Proof.
  unfold saveRegularChainState.
  destruct (getChainState ctx w block) as [row|]; simpl; [|done].
  unfold StoreOps.insert. destruct (decide _); simpl; [done|].
  intros [= <-]. by exists row.
Qed.

Lemma saveRegularChainState_succeeds (ctx : Context) (w : World)
  (block : SubstrateBlock) row :
  getChainState ctx w block = Ok row →
  id block ∉ ChainState.id <$> chainStates (store w) →
  ∃ w', saveRegularChainState ctx w block = Ok w'.
Proof.
  intros Hrow Hfresh. unfold saveRegularChainState. rewrite Hrow. simpl.
  unfold StoreOps.insert.
  destruct (getChainState_inv _ _ _ _ Hrow) as [-> _].
  rewrite decide_False by done. simpl. eauto.
Qed.

Lemma saveAccounts_chainStates (encodeId : bytes → string)
  (getBalances : Context → SubstrateBlock → list bytes →
                 result (option (list (option Balance.t))))
  (ctx : Context) (w : World) (block : SubstrateBlock) (ids : list bytes) w' :
  saveAccounts encodeId getBalances ctx w block ids = Ok w' →
  chainStates (store w') = chainStates (store w) ∧
  currentChainStates (store w') = currentChainStates (store w).
Proof.
  intros Hs.
  destruct (saveAccounts_inv _ _ _ _ _ _ _ Hs) as [[_ ->]|[bs Hb]]; [done|].
  rewrite (saveAccounts_fetched _ _ _ _ _ _ _ Hb) in Hs. by injection Hs as <-.
Qed.

(** [store.get] with [timestamp: 'DESC'] returns a row of greatest
    timestamp, and nothing only on an empty table. *)
Lemma latest_None (rows : list ChainState.t) :
  StoreOps.latest rows = None ↔ rows = [].
Proof.
  destruct rows as [|c rows]; simpl; [done|].
  split; [|done]. destruct (StoreOps.latest rows); [|done].
  by destruct (_ <? _).
Qed.

Lemma latest_greatest (rows : list ChainState.t) r :
  StoreOps.latest rows = Some r →
  r ∈ rows ∧ ∀ r', r' ∈ rows → ChainState.timestamp r' ≤ ChainState.timestamp r.
Proof.
  revert r. induction rows as [|c rows IH]; intros r; simpl; [done|].
  destruct (StoreOps.latest rows) as [c'|] eqn:Hl.
  - destruct (IH c' eq_refl) as [Hin Hmax].
    destruct (ChainState.timestamp c <? ChainState.timestamp c') eqn:Hlt;
      intros [= <-].
    + apply Z.ltb_lt in Hlt. split; [by apply elem_of_cons; right|].
      intros r' [->|Hr']%elem_of_cons; [lia | by apply Hmax].
    + apply Z.ltb_ge in Hlt. split; [by apply elem_of_cons; left|].
      intros r' [->|Hr']%elem_of_cons; [lia|].
      specialize (Hmax r' Hr'). lia.
  - apply latest_None in Hl as ->. intros [= <-].
    split; [by apply elem_of_cons; left|].
    intros r' [->|Hr']%elem_of_cons; [lia | by apply elem_of_nil in Hr'].
Qed.

Lemma initTimestamp_startsFrom (w : World) (last : option Z) :
  startsFrom w last (Scheduled.initTimestamp w last).
Proof.
  destruct last as [t|]; simpl; [constructor|].
  unfold Scheduled.getLastChainState.
  destruct (StoreOps.latest (chainStates (store w))) as [r|] eqn:Hl.
  - cbn [fmap option_fmap option_map]. rewrite or_zero_Some.
    apply latest_greatest in Hl as [Hin Hmax]. by apply startsFrom_latest.
  - apply latest_None in Hl. by apply startsFrom_cold.
Qed.

Lemma Scheduled_saveAccounts_total (encodeId : bytes → string) (ctx : Context)
  (w : World) (block : SubstrateBlock) (ids : list bytes) :
  ∃ w', Scheduled.saveAccounts encodeId ctx w block ids = Ok w'.
Proof.
  unfold Scheduled.saveAccounts, saveAccounts, Scheduled.getBalances,
    Scheduled.getSystemAccountBalances.
  destruct (negb _); simpl; [eauto|].
  destruct (saveAccounts_loop _ _ _ _ _ _ _). eauto.
Qed.

Lemma getChainState_succeeds (ctx : Context) (w : World) (block : SubstrateBlock) :
  getStorageItemTypeHash (_chain ctx) "Balances" "TotalIssuance" = None ∨
  getStorageItemTypeHash (_chain ctx) "Balances" "TotalIssuance"
    = Some BalancesTotalIssuanceStorage.hashV1 →
  ∃ row, getChainState ctx w block = Ok row.
Proof.
  intros Hh. pose proof (getChainState_eval ctx w block) as Hrec.
  destruct Hh as [Hh|Hh]; rewrite Hh in Hrec.
  - eauto.
  - rewrite decide_True in Hrec by done. eauto.
Qed.

(** C4.  One iteration of the loop of the scheduling revision.  The
    timestamp [last] it compares with is the variable when set, and else
    that of the most recent [ChainState] row, or zero without rows.  When
    the iteration completes: if the block's timestamp is at least
    [SAVE_PERIOD] past [last], exactly one row, for this block, is appended
    to [chain_state] and the variable becomes the block's timestamp;
    otherwise [chain_state] is unchanged and the variable is [last].  The
    iteration does complete once the events are decoded: always in the
    second case, and in the first when the issuance item is absent or of
    the known version and the block has no row yet. *)
Theorem durable_snapshot_cadence
  (toHex : bytes → string) (decodeHex : string → bytes)
  (encodeId : bytes → string) (classes : events.Classes)
  (ctx : Context) (st : Scheduled.Loop) (block : BlockData) :
  let ts := timestamp (header block) in
  let last :=
    Scheduled.initTimestamp (Scheduled.world st) (Scheduled.lastStateTimestamp st) in
  startsFrom (Scheduled.world st) (Scheduled.lastStateTimestamp st) last ∧
  (∀ st',
     Scheduled.processBlock toHex decodeHex encodeId classes ctx st block = Ok st' →
     (Scheduled.SAVE_PERIOD ≤ ts - last →
        ∃ row,
          chainStates (store (Scheduled.world st'))
            = chainStates (store (Scheduled.world st)) ++ [row] ∧
          ChainState.id row = id (header block) ∧
          ChainState.timestamp row = ts ∧
          ChainState.blockNumber row = height (header block) ∧
          Scheduled.lastStateTimestamp st' = Some ts) ∧
     (ts - last < Scheduled.SAVE_PERIOD →
        chainStates (store (Scheduled.world st'))
          = chainStates (store (Scheduled.world st)) ∧
        Scheduled.lastStateTimestamp st' = Some last)) ∧
  (∀ ids,
     forOf (fun s item => processBalancesEventItem toHex classes ctx item s)
       (items block) (Scheduled.accountIdsHex st) = Ok ids →
     (ts - last < Scheduled.SAVE_PERIOD →
        Scheduled.processBlock toHex decodeHex encodeId classes ctx st block
        = Ok (Scheduled.mkLoop (Scheduled.world st) (Some last) ids)) ∧
     (Scheduled.SAVE_PERIOD ≤ ts - last →
        getStorageItemTypeHash (_chain ctx) "Balances" "TotalIssuance" = None ∨
        getStorageItemTypeHash (_chain ctx) "Balances" "TotalIssuance"
          = Some BalancesTotalIssuanceStorage.hashV1 →
        id (header block)
          ∉ ChainState.id <$> chainStates (store (Scheduled.world st)) →
        ∃ st',
          Scheduled.processBlock toHex decodeHex encodeId classes ctx st block
          = Ok st')).
Proof.
  intros ts last. split; [apply initTimestamp_startsFrom|]. split.
  - intros st' Hstep. unfold Scheduled.processBlock in Hstep.
    destruct (forOf _ (items block) _) as [ids|]; simpl in Hstep; [|done].
    fold ts last in Hstep.
    destruct (Scheduled.SAVE_PERIOD <=? ts - last) eqn:Hcmp.
    + apply Z.leb_le in Hcmp. split; [intros _|lia].
      destruct (Scheduled.saveAccounts _ _ _ _ _) as [w1|] eqn:Hs1;
        simpl in Hstep; [|done].
      destruct (saveRegularChainState ctx w1 (header block)) as [w2|] eqn:Hs2;
        simpl in Hstep; [|done].
      injection Hstep as <-. simpl.
      apply saveAccounts_chainStates in Hs1 as [Hcs _].
      apply saveRegularChainState_inv in Hs2 as (row & Hrow & _ & Hcs2 & _).
      apply getChainState_inv in Hrow as (Hid & Hts & Hbn & _).
      exists row. rewrite Hcs2, Hcs. done.
    + apply Z.leb_gt in Hcmp. split; [lia|intros _].
      by injection Hstep as <-.
  - intros ids Hids. unfold Scheduled.processBlock. rewrite Hids. simpl.
    fold ts last. split.
    + intros Hlt. apply Z.leb_gt in Hlt. by rewrite Hlt.
    + intros Hle Hiss Hfresh. apply Z.leb_le in Hle. rewrite Hle.
      destruct (Scheduled_saveAccounts_total encodeId ctx (Scheduled.world st)
                  (header block) (decodeHex <$> JsSet.spread ids)) as [w1 Hs1].
      rewrite Hs1. simpl.
      destruct (getChainState_succeeds ctx w1 (header block) Hiss) as [row Hrow].
      apply saveAccounts_chainStates in Hs1 as [Hcs _].
      destruct (saveRegularChainState_succeeds ctx w1 (header block) row Hrow)
        as [w2 Hs2]; [by rewrite Hcs|].
      rewrite Hs2. simpl. eauto.
Qed.

Lemma durable_snapshot_cadence_witness :
  ∃ st',
    Scheduled.processBlock Demo.toHex Demo.decodeHex Demo.encodeId Demo.classes
      (Demo.ctx Demo.batch) (Scheduled.mkLoop Demo.emptyWorld None JsSet.empty)
      (mkBlockData Demo.block7 [Demo.transfer Demo.alice Demo.carol]) = Ok st' ∧
    ∃ row,
      chainStates (store (Scheduled.world st')) = [] ++ [row] ∧
      ChainState.id row = "0000000007-abcde"%string ∧
      ChainState.timestamp row = 43200000 ∧
      ChainState.blockNumber row = 7 ∧
      Scheduled.lastStateTimestamp st' = Some 43200000.
Proof.
  eexists. split.
  - vm_compute. reflexivity.
  - apply (proj1 (proj2 (durable_snapshot_cadence Demo.toHex Demo.decodeHex
      Demo.encodeId Demo.classes (Demo.ctx Demo.batch)
      (Scheduled.mkLoop Demo.emptyWorld None JsSet.empty)
      (mkBlockData Demo.block7 [Demo.transfer Demo.alice Demo.carol])))).
    + vm_compute. reflexivity.
    + vm_compute. discriminate.
Defined.

(** ** Order of reconciliation and snapshot *)

(** In the scheduling revision the snapshot of a window is taken after
    [saveAccounts]: its holder count is the number of rows the window
    leaves, and the accumulator is cleared. *)
Lemma Scheduled_snapshot_after_reconciliation
  (toHex : bytes → string) (decodeHex : string → bytes)
  (encodeId : bytes → string) (classes : events.Classes)
  (ctx : Context) (st st' : Scheduled.Loop) (block : BlockData) :
  Scheduled.processBlock toHex decodeHex encodeId classes ctx st block = Ok st' →
  Scheduled.SAVE_PERIOD ≤
    timestamp (header block)
    - Scheduled.initTimestamp (Scheduled.world st) (Scheduled.lastStateTimestamp st) →
  ∃ row,
    chainStates (store (Scheduled.world st'))
      = chainStates (store (Scheduled.world st)) ++ [row] ∧
    ChainState.tokenHolders row
      = Z.of_nat (size (accounts (store (Scheduled.world st')))) ∧
    Scheduled.accountIdsHex st' = [].
Proof.
  intros Hstep Hle. unfold Scheduled.processBlock in Hstep.
  destruct (forOf _ (items block) _) as [ids|]; simpl in Hstep; [|done].
  apply Z.leb_le in Hle. rewrite Hle in Hstep.
  destruct (Scheduled.saveAccounts _ _ _ _ _) as [w1|] eqn:Hs1;
    simpl in Hstep; [|done].
  destruct (saveRegularChainState ctx w1 (header block)) as [w2|] eqn:Hs2;
    simpl in Hstep; [|done].
  injection Hstep as <-. simpl.
  apply saveAccounts_chainStates in Hs1 as [Hcs _].
  apply saveRegularChainState_inv in Hs2 as (row & Hrow & Hacc & Hcs2 & _).
  apply getChainState_inv in Hrow as (_ & _ & _ & Hth).
  exists row. by rewrite Hcs2, Hcs, Hacc.
Qed.

(** In the versioned revision the snapshot is taken first: its holder count
    is the number of rows before the window's reconciliation. *)
Lemma Versioned_snapshot_before_reconciliation
  (toHex : bytes → string) (decodeHex : string → bytes)
  (encodeId : bytes → string) (classes : events.Classes)
  (ctx : Context) (w w' : World) :
  Versioned.processBalances toHex decodeHex encodeId classes ctx w = Ok w' →
  ∃ row,
    chainStates (store w') = chainStates (store w) ++ [row] ∧
    ChainState.tokenHolders row = Z.of_nat (size (accounts (store w))).
Proof.
  unfold Versioned.processBalances.
  destruct (forOf _ (blocks ctx) _) as [ids|]; simpl; [|done].
  destruct (last (blocks ctx)) as [block|]; [|done].
  destruct (saveRegularChainState ctx w (header block)) as [w1|] eqn:Hs1;
    simpl; [|done].
  intros Hs2. apply saveAccounts_chainStates in Hs2 as [Hcs _].
  apply saveRegularChainState_inv in Hs1 as (row & Hrow & _ & Hcs1 & _).
  apply getChainState_inv in Hrow as (_ & _ & _ & Hth).
  exists row. by rewrite Hcs, Hcs1.
Qed.

(** C6, on an empty store and a batch of one block in which [alice] pays
    [carol].  The versioned revision takes the snapshot before it fetches
    and reconciles: the row it inserts records 0 token holders although the
    window leaves two rows.  The loop body of the scheduling revision, on
    the same block, reconciles first, records 2 and clears the set. *)
Theorem versioned_snapshot_precedes_reconciliation :
  (∃ w',
     Versioned.processBalances Demo.toHex Demo.decodeHex Demo.encodeId
       Demo.classes (Demo.ctx Demo.batch) Demo.emptyWorld = Ok w' ∧
     chainStates (store w')
       = [ChainState.mk "0000000007-abcde" 43200000 7 1000 0] ∧
     size (accounts (store w')) = 2%nat ∧
     log w' = [LogState 7; LogAccounts 2 0]) ∧
  (∃ st',
     Scheduled.processBlock Demo.toHex Demo.decodeHex Demo.encodeId
       Demo.classes (Demo.ctx Demo.batch)
       (Scheduled.mkLoop Demo.emptyWorld None JsSet.empty)
       (mkBlockData Demo.block7 [Demo.transfer Demo.alice Demo.carol]) = Ok st' ∧
     chainStates (store (Scheduled.world st'))
       = [ChainState.mk "0000000007-abcde" 43200000 7 1000 2] ∧
     size (accounts (store (Scheduled.world st'))) = 2%nat ∧
     log (Scheduled.world st') = [LogAccounts 2 0; LogState 7] ∧
     Scheduled.accountIdsHex st' = []).
Proof.
  split.
  - eexists. split; [vm_compute; reflexivity|].
    repeat split; vm_compute; reflexivity.
  - eexists. split; [vm_compute; reflexivity|].
    repeat split; vm_compute; reflexivity.
Qed.

(** * Accumulation of touched accounts *)

Lemma JsSet_add_elem x y (s : JsSet.t) : y ∈ JsSet.add x s ↔ y = x ∨ y ∈ s.
Proof.
  unfold JsSet.add. destruct (decide (x ∈ s)) as [Hin|Hin].
  - split; [by right | intros [->|?]; done].
  - rewrite elem_of_app, list_elem_of_singleton. tauto.
Qed.

Lemma JsSet_add_NoDup x (s : JsSet.t) : NoDup s → NoDup (JsSet.add x s).
Proof.
  intros Hnd. unfold JsSet.add. destruct (decide (x ∈ s)) as [Hin|Hin]; [done|].
  apply NoDup_app. split; [done|]. split; [|apply NoDup_singleton].
  intros y Hy ->%list_elem_of_singleton. done.
Qed.

Lemma JsSet_add_present x (s : JsSet.t) : x ∈ s → JsSet.add x s = s.
Proof. intros Hin. unfold JsSet.add. by rewrite decide_True. Qed.

(** Adding is idempotent. *)
Lemma JsSet_add_idemp x (s : JsSet.t) : JsSet.add x (JsSet.add x s) = JsSet.add x s.
Proof. apply JsSet_add_present. apply JsSet_add_elem. by left. Qed.

Lemma adds_elem t : ∀ (s : JsSet.t) y, y ∈ adds t s ↔ y ∈ s ∨ y ∈ t.
Proof.
  induction t as [|x t IH]; intros s y.
  - split; [by left | intros [?|?%elem_of_nil]; done].
  - change (adds (x :: t) s) with (adds t (JsSet.add x s)).
    rewrite IH, JsSet_add_elem, elem_of_cons. tauto.
Qed.

Lemma adds_NoDup t : ∀ s : JsSet.t, NoDup s → NoDup (adds t s).
Proof.
  induction t as [|x t IH]; intros s Hnd; [done|].
  change (adds (x :: t) s) with (adds t (JsSet.add x s)).
  apply IH. by apply JsSet_add_NoDup.
Qed.

Lemma adds_present t : ∀ s : JsSet.t, (∀ x, x ∈ t → x ∈ s) → adds t s = s.
Proof.
  induction t as [|x t IH]; intros s Hin; [done|].
  change (adds (x :: t) s) with (adds t (JsSet.add x s)).
  rewrite JsSet_add_present by (apply Hin, elem_of_cons; by left).
  apply IH. intros y Hy. apply Hin, elem_of_cons. by right.
Qed.

Section Accumulation.
Variable toHex : bytes → string.
Variable classes : events.Classes.
Variable ctx : Context.

Abbreviation process := (fun s item => processBalancesEventItem toHex classes ctx item s).

(** What an item does to the set does not depend on the set: it throws, or
    it adds the accounts it touches. *)
Lemma processBalancesEventItem_shape (item : Item) :
  (∃ t, ∀ s, processBalancesEventItem toHex classes ctx item s = Ok (adds t s)) ∨
  (∃ e, ∀ s, processBalancesEventItem toHex classes ctx item s = Err e).
Proof.
  unfold processBalancesEventItem.
  repeat (destruct (String.eqb (name item) _);
          [ match goal with
            | |- context [mbind _ (?get ctx (event item))] =>
                destruct (get ctx (event item)) as [r|e];
                [ left; first [ exists [r] | exists [r.1; r.2] ]
                | right; exists e ];
                intros s; reflexivity
            end | ]).
  left. exists []. reflexivity.
Qed.

Lemma forOf_process_elem (its : list Item) : ∀ (s s' : JsSet.t),
  forOf process its s = Ok s' →
  ∀ x, x ∈ s' ↔
       x ∈ s ∨ ∃ item u, item ∈ its ∧
                        processBalancesEventItem toHex classes ctx item [] = Ok u ∧
                        x ∈ u.
Proof.
  induction its as [|item its IH]; intros s s' Hrun x; simpl in Hrun.
  - injection Hrun as <-. split; [by left|].
    intros [?|(item & u & Hin & _)]; [done | by apply elem_of_nil in Hin].
  - destruct (processBalancesEventItem_shape item) as [[t Ht]|[e He]];
      [|by rewrite He in Hrun].
    rewrite Ht in Hrun. simpl in Hrun. rewrite (IH _ _ Hrun x), adds_elem.
    split.
    + intros [[?|Hx]|(it & u & Hin & Hu & Hx)].
      * by left.
      * right. exists item, (adds t []). split; [by apply elem_of_cons; left|].
        split; [apply Ht|]. apply adds_elem. by right.
      * right. exists it, u. split; [by apply elem_of_cons; right | done].
    + intros [?|(it & u & Hin & Hu & Hx)]; [by left; left|].
      apply elem_of_cons in Hin as [->|Hin].
      * left. right. rewrite Ht in Hu. injection Hu as <-.
        apply adds_elem in Hx as [?%elem_of_nil|?]; done.
      * right. by exists it, u.
Qed.

Lemma forOf_process_NoDup (its : list Item) : ∀ (s s' : JsSet.t),
  forOf process its s = Ok s' → NoDup s → NoDup s'.
Proof.
  induction its as [|item its IH]; intros s s' Hrun Hnd; simpl in Hrun.
  - by injection Hrun as <-.
  - destruct (processBalancesEventItem_shape item) as [[t Ht]|[e He]];
      [|by rewrite He in Hrun].
    rewrite Ht in Hrun. simpl in Hrun. eapply IH; [done|]. by apply adds_NoDup.
Qed.

Lemma forOf_process_item_ok (its : list Item) item : ∀ (s s' : JsSet.t),
  forOf process its s = Ok s' → item ∈ its →
  ∃ t, ∀ s0, processBalancesEventItem toHex classes ctx item s0 = Ok (adds t s0).
Proof.
  induction its as [|it its IH]; intros s s' Hrun Hin;
    [by apply elem_of_nil in Hin|].
  simpl in Hrun.
  destruct (processBalancesEventItem_shape it) as [[t Ht]|[e He]];
    [|by rewrite He in Hrun].
  apply elem_of_cons in Hin as [->|Hin]; [by exists t|].
  rewrite Ht in Hrun. simpl in Hrun. by eapply IH.
Qed.

(** Touching again an account that was touched in the window changes
    nothing. *)
Lemma forOf_process_again (its : list Item) (s s' : JsSet.t) item :
  forOf process its s = Ok s' → item ∈ its →
  processBalancesEventItem toHex classes ctx item s' = Ok s'.
Proof.
  intros Hrun Hin.
  destruct (forOf_process_item_ok _ _ _ _ Hrun Hin) as [t Ht].
  rewrite Ht. f_equal. apply adds_present. intros x Hx.
  apply (forOf_process_elem _ _ _ Hrun). right.
  exists item, (adds t []). split; [done|]. split; [apply Ht|].
  apply adds_elem. by right.
Qed.

End Accumulation.

(** ** Reconciliation does not depend on the order of the ids *)

Section Pointwise.
Variable encodeId : bytes → string.
Variable block : SubstrateBlock.
(* the balance the chain holds for each account, if any *)
Variable g : bytes → option Balance.t.

Lemma balanceAt_fmap (ids : list bytes) i a :
  ids !! i = Some a → balanceAt (g <$> ids) i = g a.
Proof. intros Hi. unfold balanceAt. by rewrite list_lookup_fmap, Hi. Qed.

Lemma deletionSet_pointwise (ids : list bytes) k :
  k ∈ JsMap.keys (deletionSet encodeId block (g <$> ids) ids) ↔
  ∃ a b, a ∈ ids ∧ g a = Some b ∧
         Balance.free b + Balance.reserved b ≤ 0 ∧ k = encodeId a.
Proof.
  unfold deletionSet. rewrite loop_deletions. simpl. split.
  - intros [Hin|(j & a & b & Hj & Hb & Ht & ->)]; [by apply elem_of_nil in Hin|].
    rewrite (balanceAt_fmap _ _ _ Hj) in Hb.
    exists a, b. split; [by eapply list_elem_of_lookup_2 | done].
  - intros (a & b & Hin & Hb & Ht & ->). right.
    apply list_elem_of_lookup_1 in Hin as [j Hj]. exists j, a, b.
    by rewrite (balanceAt_fmap _ _ _ Hj).
Qed.

Lemma upsertSet_pointwise (ids : list bytes) k v :
  NoDup (encodeId <$> ids) →
  JsMap.get k (upsertSet encodeId block (g <$> ids) ids) = Some v ↔
  ∃ a b, a ∈ ids ∧ g a = Some b ∧
         0 < Balance.free b + Balance.reserved b ∧
         k = encodeId a ∧ v = accountOf k b block.
Proof.
  intros Hnd. split.
  - intros Hget. unfold upsertSet in Hget.
    apply loop_upserts_inv in Hget
      as [?|(j & a & b & Hj & Hb & Ht & -> & ->)]; [done|].
    simpl in Hb. rewrite (balanceAt_fmap _ _ _ Hj) in Hb.
    exists a, b. split; [by eapply list_elem_of_lookup_2 | done].
  - intros (a & b & Hin & Hb & Ht & -> & ->).
    apply list_elem_of_lookup_1 in Hin as [j Hj].
    apply (upsertSet_positive _ _ _ _ Hnd j); [done| |done].
    by rewrite (balanceAt_fmap _ _ _ Hj).
Qed.

Lemma upsertSet_permutation (ids1 ids2 : list bytes) k :
  ids1 ≡ₚ ids2 → NoDup (encodeId <$> ids1) →
  JsMap.get k (upsertSet encodeId block (g <$> ids1) ids1)
  = JsMap.get k (upsertSet encodeId block (g <$> ids2) ids2).
Proof.
  intros Hperm Hnd1.
  assert (NoDup (encodeId <$> ids2)) as Hnd2 by (by rewrite <- Hperm).
  destruct (JsMap.get k (upsertSet _ _ (g <$> ids1) ids1)) as [v|] eqn:H1.
  - symmetry. apply (upsertSet_pointwise _ _ _ Hnd2).
    apply (upsertSet_pointwise _ _ _ Hnd1) in H1
      as (a & b & Hin & ?). exists a, b. by rewrite <- Hperm.
  - destruct (JsMap.get k (upsertSet _ _ (g <$> ids2) ids2)) as [v|] eqn:H2;
      [|done].
    apply (upsertSet_pointwise _ _ _ Hnd2) in H2 as (a & b & Hin & ?).
    assert (JsMap.get k (upsertSet encodeId block (g <$> ids1) ids1) = Some v)
      as H1'; [|congruence].
    apply (upsertSet_pointwise _ _ _ Hnd1). exists a, b. by rewrite Hperm.
Qed.

Lemma deletionSet_permutation (ids1 ids2 : list bytes) k :
  ids1 ≡ₚ ids2 →
  k ∈ JsMap.keys (deletionSet encodeId block (g <$> ids1) ids1) ↔
  k ∈ JsMap.keys (deletionSet encodeId block (g <$> ids2) ids2).
Proof.
  intros Hperm. rewrite !deletionSet_pointwise.
  split; intros (a & b & Hin & ?); exists a, b; [by rewrite <- Hperm|by rewrite Hperm].
Qed.

Variable getBalances :
  Context → SubstrateBlock → list bytes →
  result (option (list (option Balance.t))).

Lemma saveAccounts_permutation ctx w (ids1 ids2 : list bytes) w1 w2 :
  ids1 ≡ₚ ids2 → NoDup (encodeId <$> ids1) →
  getBalances ctx block ids1 = Ok (Some (g <$> ids1)) →
  getBalances ctx block ids2 = Ok (Some (g <$> ids2)) →
  saveAccounts encodeId getBalances ctx w block ids1 = Ok w1 →
  saveAccounts encodeId getBalances ctx w block ids2 = Ok w2 →
  store w1 = store w2.
Proof.
  intros Hperm Hnd Hb1 Hb2 Hs1 Hs2.
  destruct (saveAccounts_chainStates _ _ _ _ _ _ _ Hs1) as [Hc1 Hcc1].
  destruct (saveAccounts_chainStates _ _ _ _ _ _ _ Hs2) as [Hc2 Hcc2].
  assert (accounts (store w1) = accounts (store w2)) as Hacc.
  { apply map_eq. intros k.
    rewrite (saveAccounts_lookup _ _ _ _ _ _ _ _ k Hb1 Hs1).
    rewrite (saveAccounts_lookup _ _ _ _ _ _ _ _ k Hb2 Hs2).
    pose proof (deletionSet_permutation ids1 ids2 k Hperm) as Hdel.
    pose proof (upsertSet_permutation ids1 ids2 k Hperm Hnd) as Hup.
    unfold deletionSet in Hdel. unfold upsertSet in Hup. rewrite Hup.
    destruct (decide (k ∈ JsMap.keys (saveAccounts_loop _ _ (g <$> ids1) _ _ _ _).2));
      destruct (decide (k ∈ JsMap.keys (saveAccounts_loop _ _ (g <$> ids2) _ _ _ _).2));
      tauto. }
  destruct (store w1), (store w2). simpl in *. congruence.
Qed.

End Pointwise.

Lemma touches_elem (toHex : bytes → string) (classes : events.Classes)
  (ctx : Context) (its : list Item) (s : JsSet.t) (x : string) :
  forOf (fun s item => processBalancesEventItem toHex classes ctx item s)
    its JsSet.empty = Ok s →
  x ∈ s ↔ touches toHex classes ctx its x.
Proof.
  intros Hrun. rewrite (forOf_process_elem _ _ _ _ _ _ Hrun x).
  unfold touches, JsSet.empty. split; [|by right].
  intros [Hin|?]; [by apply elem_of_nil in Hin | done].
Qed.

(** C7.  The set accumulated over the items of a window holds exactly the
    accounts they touch, each once, however many items touch an account
    and in whatever order; processing again an item of the window leaves
    the set as it is.  Two windows that touch the same accounts hand
    [saveAccounts] the same ids up to order, one entry per account, and
    (the chain answering per account and the encoded ids being distinct)
    leave the same store. *)
Theorem touched_accounts_accumulate_as_a_set
  (toHex : bytes → string) (decodeHex : string → bytes)
  (encodeId : bytes → string) (classes : events.Classes)
  (getBalances : Context → SubstrateBlock → list bytes →
                 result (option (list (option Balance.t))))
  (ctx : Context) (block : SubstrateBlock)
  (items1 items2 : list Item) (s1 s2 : JsSet.t) :
  forOf (fun s item => processBalancesEventItem toHex classes ctx item s)
    items1 JsSet.empty = Ok s1 →
  forOf (fun s item => processBalancesEventItem toHex classes ctx item s)
    items2 JsSet.empty = Ok s2 →
  (∀ x, touches toHex classes ctx items1 x ↔ touches toHex classes ctx items2 x) →
  NoDup s1 ∧
  (∀ x, x ∈ s1 ↔ touches toHex classes ctx items1 x) ∧
  (∀ item, item ∈ items1 →
           processBalancesEventItem toHex classes ctx item s1 = Ok s1) ∧
  decodeHex <$> JsSet.spread s1 ≡ₚ decodeHex <$> JsSet.spread s2 ∧
  (∀ g w w1 w2,
     NoDup (encodeId <$> (decodeHex <$> JsSet.spread s1)) →
     getBalances ctx block (decodeHex <$> JsSet.spread s1)
       = Ok (Some (g <$> (decodeHex <$> JsSet.spread s1))) →
     getBalances ctx block (decodeHex <$> JsSet.spread s2)
       = Ok (Some (g <$> (decodeHex <$> JsSet.spread s2))) →
     saveAccounts encodeId getBalances ctx w block (decodeHex <$> JsSet.spread s1)
       = Ok w1 →
     saveAccounts encodeId getBalances ctx w block (decodeHex <$> JsSet.spread s2)
       = Ok w2 →
     store w1 = store w2).
Proof.
  intros Hrun1 Hrun2 Hsame.
  assert (NoDup s1) as Hnd1
    by (eapply forOf_process_NoDup; [exact Hrun1 | constructor]).
  assert (NoDup s2) as Hnd2
    by (eapply forOf_process_NoDup; [exact Hrun2 | constructor]).
  pose proof (touches_elem toHex classes ctx) as Helem.
  assert (s1 ≡ₚ s2) as Hperm.
  { apply NoDup_Permutation; [done..|]. intros x.
    rewrite (Helem _ _ x Hrun1), (Helem _ _ x Hrun2). apply Hsame. }
  split; [done|]. split; [intros x; by apply Helem|].
  split; [intros item Hin; by eapply forOf_process_again|].
  split; [unfold JsSet.spread; by rewrite Hperm|].
  intros g w w1 w2 Hdist Hb1 Hb2 Hs1 Hs2.
  eapply (saveAccounts_permutation encodeId block g getBalances ctx w);
    [|exact Hdist|exact Hb1|exact Hb2|exact Hs1|exact Hs2].
  unfold JsSet.spread. by rewrite Hperm.
Qed.

Lemma touched_accounts_accumulate_as_a_set_witness :
  ∃ w1 w2,
    Scheduled.saveAccounts Demo.encodeId (Demo.ctx []) Demo.world0 Demo.block7
      (Demo.decodeHex <$> ["alice"; "carol"]%string) = Ok w1 ∧
    Scheduled.saveAccounts Demo.encodeId (Demo.ctx []) Demo.world0 Demo.block7
      (Demo.decodeHex <$> ["carol"; "alice"]%string) = Ok w2 ∧
    store w1 = store w2.
Proof.
  eexists _, _. split; [vm_compute; reflexivity|].
  split; [vm_compute; reflexivity|].
  refine (proj2 (proj2 (proj2 (proj2
    (touched_accounts_accumulate_as_a_set Demo.toHex Demo.decodeHex
       Demo.encodeId Demo.classes Scheduled.getBalances (Demo.ctx [])
       Demo.block7 Demo.window1 Demo.window2
       ["alice"; "carol"]%string ["carol"; "alice"]%string _ _ _))))
    Demo.balanceOf Demo.world0 _ _ _ _ _ _ _).
  - vm_compute. reflexivity.
  - vm_compute. reflexivity.
  - intros x.
    rewrite <- (touches_elem Demo.toHex Demo.classes (Demo.ctx []) Demo.window1
                  ["alice"; "carol"]%string x) by (vm_compute; reflexivity).
    rewrite <- (touches_elem Demo.toHex Demo.classes (Demo.ctx []) Demo.window2
                  ["carol"; "alice"]%string x) by (vm_compute; reflexivity).
    rewrite !elem_of_cons. tauto.
  - apply (bool_decide_unpack _). vm_compute. reflexivity.
  - vm_compute. reflexivity.
  - vm_compute. reflexivity.
  - vm_compute. reflexivity.
  - vm_compute. reflexivity.
Defined.

(** ** The ids handed to [saveAccounts] are distinct

    Every member of the accumulated set is the hex form of an account, so
    with codecs that round-trip ([decodeHex] after [toHex]) and an injective
    address encoding, the encoded ids of a window are pairwise distinct:
    the condition under which the classification above is stated. *)

Section DistinctIds.
Variable toHex : bytes → string.
Variable decodeHex : string → bytes.
Variable encodeId : bytes → string.
Variable classes : events.Classes.
Variable ctx : Context.
Hypothesis decodeHex_toHex : ∀ a, decodeHex (toHex a) = a.
Hypothesis encodeId_inj : ∀ a a', encodeId a = encodeId a' → a = a'.

Lemma processBalancesEventItem_hexes (item : Item) (s s' : JsSet.t) :
  processBalancesEventItem toHex classes ctx item s = Ok s' →
  hexes toHex s → hexes toHex s'.
Proof.
  unfold processBalancesEventItem, getBalanceSetAccount, getEndowedAccount,
    getDepositAccount, getReservedAccount, getUnreservedAccount,
    getWithdrawAccount, getSlashedAccount, getTransferAccounts,
    getReserveRepatriatedAccounts.
  intros Hstep Hs.
  repeat match type of Hstep with
         | context [if ?b then _ else _] => destruct b
         end;
    simpl in Hstep; try discriminate; injection Hstep as <-;
    intros x Hx; repeat (apply JsSet_add_elem in Hx as [->|Hx]); eauto.
Qed.

Lemma forOf_process_hexes (its : list Item) : ∀ (s s' : JsSet.t),
  forOf (fun s item => processBalancesEventItem toHex classes ctx item s) its s
    = Ok s' →
  hexes toHex s → hexes toHex s'.
Proof.
  induction its as [|item its IH]; intros s s' Hrun Hs; simpl in Hrun.
  - by injection Hrun as <-.
  - destruct (processBalancesEventItem toHex classes ctx item s) as [s0|] eqn:H0;
      simpl in Hrun; [|done].
    eapply IH; [done|]. by eapply processBalancesEventItem_hexes.
Qed.

Lemma window_ids_distinct (its : list Item) (s : JsSet.t) :
  forOf (fun s item => processBalancesEventItem toHex classes ctx item s)
    its JsSet.empty = Ok s →
  NoDup (encodeId <$> (decodeHex <$> JsSet.spread s)).
Proof.
  intros Hrun.
  assert (NoDup s) as Hnd
    by (eapply forOf_process_NoDup; [exact Hrun | constructor]).
  assert (hexes toHex s) as Hhex.
  { eapply forOf_process_hexes; [exact Hrun|].
    intros x Hx. by apply elem_of_nil in Hx. }
  unfold JsSet.spread. rewrite <- list_fmap_compose.
  apply NoDup_fmap_2_strong; [|done].
  intros x y Hx Hy Heq. simpl in Heq. apply encodeId_inj in Heq.
  destruct (Hhex x Hx) as [a ->]. destruct (Hhex y Hy) as [a' ->].
  rewrite !decodeHex_toHex in Heq. by subst.
Qed.

End DistinctIds.

(** ** The invariant over a whole batch *)

Lemma AccountInvariant_empty : AccountInvariant ∅.
Proof. apply map_Forall_empty. Qed.

Lemma Versioned_processBalances_invariant
  (toHex : bytes → string) (decodeHex : string → bytes)
  (encodeId : bytes → string) (classes : events.Classes)
  (ctx : Context) (w w' : World) :
  AccountInvariant (accounts (store w)) →
  Versioned.processBalances toHex decodeHex encodeId classes ctx w = Ok w' →
  AccountInvariant (accounts (store w')).
Proof.
  intros Hinv. unfold Versioned.processBalances.
  destruct (forOf _ (blocks ctx) _) as [ids|]; simpl; [|done].
  destruct (last (blocks ctx)) as [block|]; [|done].
  destruct (saveRegularChainState ctx w (header block)) as [w1|] eqn:Hs1;
    simpl; [|done].
  apply saveRegularChainState_inv in Hs1 as (_ & _ & Hacc & _).
  intros Hs2. eapply saveAccounts_invariant; [|exact Hs2]. by rewrite Hacc.
Qed.

Lemma Scheduled_processBlock_invariant
  (toHex : bytes → string) (decodeHex : string → bytes)
  (encodeId : bytes → string) (classes : events.Classes)
  (ctx : Context) (st st' : Scheduled.Loop) (block : BlockData) :
  AccountInvariant (accounts (store (Scheduled.world st))) →
  Scheduled.processBlock toHex decodeHex encodeId classes ctx st block = Ok st' →
  AccountInvariant (accounts (store (Scheduled.world st'))).
Proof.
  intros Hinv. unfold Scheduled.processBlock.
  destruct (forOf _ (items block) _) as [ids|]; simpl; [|done].
  destruct (_ <=? _); [|by intros [= <-]].
  destruct (Scheduled.saveAccounts _ _ _ _ _) as [w1|] eqn:Hs1; simpl; [|done].
  destruct (saveRegularChainState ctx w1 (header block)) as [w2|] eqn:Hs2;
    simpl; [|done].
  intros [= <-]. simpl.
  apply saveRegularChainState_inv in Hs2 as (_ & _ & -> & _).
  by eapply saveAccounts_invariant.
Qed.

Lemma Scheduled_processBalances_invariant
  (toHex : bytes → string) (decodeHex : string → bytes)
  (encodeId : bytes → string) (classes : events.Classes)
  (ctx : Context) (w w' : World) (ts ts' : option Z) :
  AccountInvariant (accounts (store w)) →
  Scheduled.processBalances toHex decodeHex encodeId classes ctx w ts
    = Ok (w', ts') →
  AccountInvariant (accounts (store w')).
Proof.
  intros Hinv. unfold Scheduled.processBalances.
  assert (∀ bs st st',
            AccountInvariant (accounts (store (Scheduled.world st))) →
            forOf (Scheduled.processBlock toHex decodeHex encodeId classes ctx)
              bs st = Ok st' →
            AccountInvariant (accounts (store (Scheduled.world st')))) as Hloop.
  { induction bs as [|b bs IH]; intros st st' Hst Hrun; simpl in Hrun.
    - by injection Hrun as <-.
    - destruct (Scheduled.processBlock _ _ _ _ _ st b) as [st0|] eqn:Hb;
        simpl in Hrun; [|done].
      eapply IH; [|exact Hrun]. by eapply Scheduled_processBlock_invariant. }
  destruct (forOf _ (blocks ctx) _) as [st|] eqn:Hrun; simpl; [|done].
  apply Hloop in Hrun; [|done].
  destruct (last (blocks ctx)) as [block|]; [|done].
  destruct (Scheduled.saveAccounts _ _ _ _ _) as [w1|] eqn:Hs1; simpl; [|done].
  unfold saveCurrentChainState.
  destruct (getChainState ctx w1 (header block)); simpl; [|done].
  intros [= <- _]. simpl. by eapply saveAccounts_invariant.
Qed.

(** * Further properties of the processor *)

(** ** More on [saveAccounts] *)

Section SaveAccountsMore.
Variable encodeId : bytes → string.
Variable getBalances :
  Context → SubstrateBlock → list bytes →
  result (option (list (option Balance.t))).

Lemma loop_keys_requested block balances rest : ∀ i acc del k,
  (k ∈ JsMap.keys (saveAccounts_loop encodeId block balances i rest acc del).1 →
   k ∈ JsMap.keys acc ∨ k ∈ encodeId <$> rest) ∧
  (k ∈ JsMap.keys (saveAccounts_loop encodeId block balances i rest acc del).2 →
   k ∈ JsMap.keys del ∨ k ∈ encodeId <$> rest).
Proof.
  induction rest as [|a rest IH]; intros i acc del k; [by split; left|].
  cbn [saveAccounts_loop]. rewrite fmap_cons.
  assert (∀ (X Y : JsMap.t Account.t),
            (k ∈ JsMap.keys X → k ∈ JsMap.keys acc ∨ k ∈ encodeId a :: (encodeId <$> rest)) →
            (k ∈ JsMap.keys Y → k ∈ JsMap.keys del ∨ k ∈ encodeId a :: (encodeId <$> rest)) →
            (k ∈ JsMap.keys (saveAccounts_loop encodeId block balances (S i) rest X Y).1 →
             k ∈ JsMap.keys acc ∨ k ∈ encodeId a :: (encodeId <$> rest)) ∧
            (k ∈ JsMap.keys (saveAccounts_loop encodeId block balances (S i) rest X Y).2 →
             k ∈ JsMap.keys del ∨ k ∈ encodeId a :: (encodeId <$> rest))) as Hstep.
  { intros X Y HX HY. destruct (IH (S i) X Y k) as [IH1 IH2].
    split; intros Hin; [apply IH1 in Hin|apply IH2 in Hin];
      (destruct Hin as [Hin|Hin]; [auto | right; apply elem_of_cons; by right]). }
  assert (∀ (m : JsMap.t Account.t) v,
            k ∈ JsMap.keys (JsMap.set (encodeId a) v m) →
            k ∈ JsMap.keys m ∨ k ∈ encodeId a :: (encodeId <$> rest)) as Hset.
  { intros m v [->|?]%JsMap_keys_set; [right; apply elem_of_cons|]; by left. }
  destruct (balanceAt balances i) as [b|]; [destruct (0 <? _)|];
    apply Hstep; eauto.
Qed.

(** X1.  [saveAccounts] touches only the rows of the accounts it was asked
    about: a key that is the encoded id of none of them keeps its row, or
    its absence. *)
Theorem saveAccounts_leaves_other_rows
  (ctx : Context) (w : World) (block : SubstrateBlock)
  (accountIds : list bytes) (w' : World) (k : string) :
  saveAccounts encodeId getBalances ctx w block accountIds = Ok w' →
  k ∉ encodeId <$> accountIds →
  accounts (store w') !! k = accounts (store w) !! k.
Proof.
  intros Hs Hk.
  destruct (saveAccounts_inv _ _ _ _ _ _ _ Hs) as [[_ ->]|[bs Hb]]; [done|].
  rewrite (saveAccounts_lookup _ _ _ _ _ _ _ _ k Hb Hs).
  destruct (loop_keys_requested block bs accountIds 0 [] [] k) as [Hup Hdel].
  rewrite decide_False.
  - destruct (JsMap.get k _) eqn:Hget; [|done].
    exfalso. assert (JsMap.get k (saveAccounts_loop encodeId block bs 0
                       accountIds JsMap.empty JsMap.empty).1 ≠ None) as Hne
      by (by rewrite Hget).
    rewrite JsMap_get_None in Hne. apply dec_stable in Hne.
    apply Hup in Hne as [Hin|?]; [by apply elem_of_nil in Hin | done].
  - intros Hin. apply Hdel in Hin as [Hin|?]; [by apply elem_of_nil in Hin | done].
Qed.

(** X2.  Reconciling again with the same block and ids changes nothing:
    the second call succeeds and leaves the store of the first. *)
Theorem saveAccounts_twice
  (ctx : Context) (w : World) (block : SubstrateBlock)
  (accountIds : list bytes) (w1 : World) :
  saveAccounts encodeId getBalances ctx w block accountIds = Ok w1 →
  ∃ w2, saveAccounts encodeId getBalances ctx w1 block accountIds = Ok w2 ∧
        store w2 = store w1.
Proof.
  intros Hs1.
  destruct (saveAccounts_inv _ _ _ _ _ _ _ Hs1) as [[Hb ->]|[bs Hb]].
  - eexists. unfold saveAccounts. rewrite Hb. simpl. done.
  - eexists. split; [by apply saveAccounts_fetched|].
    pose proof (saveAccounts_fetched encodeId getBalances ctx w1 _ _ _ Hb) as Hs2.
    destruct (saveAccounts_chainStates _ _ _ _ _ _ _ Hs2) as [Hc Hcc].
    assert (accounts (store (mkWorld
              (StoreOps.remove (JsMap.values (saveAccounts_loop encodeId block bs 0
                                  accountIds JsMap.empty JsMap.empty).2)
                 (StoreOps.save (JsMap.values (saveAccounts_loop encodeId block bs 0
                                  accountIds JsMap.empty JsMap.empty).1)
                    (store w1)))
              (log w1 ++ [LogAccounts
                 (JsMap.size (saveAccounts_loop encodeId block bs 0
                                accountIds JsMap.empty JsMap.empty).1)
                 (JsMap.size (saveAccounts_loop encodeId block bs 0
                                accountIds JsMap.empty JsMap.empty).2)])))
            = accounts (store w1)) as Hacc.
    { apply map_eq. intros k.
      rewrite (saveAccounts_lookup _ _ _ _ _ _ _ _ k Hb Hs2).
      rewrite (saveAccounts_lookup _ _ _ _ _ _ _ _ k Hb Hs1).
      destruct (decide _); [done|]. by destruct (JsMap.get k _). }
    revert Hc Hcc Hacc. generalize (mkWorld
       (StoreOps.remove (JsMap.values (saveAccounts_loop encodeId block bs 0
                                  accountIds JsMap.empty JsMap.empty).2)
                 (StoreOps.save (JsMap.values (saveAccounts_loop encodeId block bs 0
                                  accountIds JsMap.empty JsMap.empty).1)
                    (store w1)))
       (log w1 ++ [LogAccounts
                 (JsMap.size (saveAccounts_loop encodeId block bs 0
                                accountIds JsMap.empty JsMap.empty).1)
                 (JsMap.size (saveAccounts_loop encodeId block bs 0
                                accountIds JsMap.empty JsMap.empty).2)])).
    intros w2. destruct (store w2), (store w1). simpl. congruence.
Qed.

(** X3.  Every row found after [saveAccounts] is the row that was there
    before, or a row written by this call: then it satisfies the row
    invariant and its [updatedAt] is the height of the reference block. *)
Theorem saveAccounts_rows_are_old_or_stamped
  (ctx : Context) (w : World) (block : SubstrateBlock)
  (accountIds : list bytes) (w' : World) (k : string) (a : Account.t) :
  saveAccounts encodeId getBalances ctx w block accountIds = Ok w' →
  accounts (store w') !! k = Some a →
  accounts (store w) !! k = Some a ∨
  (row_ok k a = true ∧ Account.updatedAt a = Some (height block) ∧
   k ∈ encodeId <$> accountIds).
Proof.
  intros Hs Hk.
  destruct (saveAccounts_inv _ _ _ _ _ _ _ Hs) as [[_ ->]|[bs Hb]]; [by left|].
  rewrite (saveAccounts_lookup _ _ _ _ _ _ _ _ k Hb Hs) in Hk.
  destruct (decide _); [done|].
  destruct (JsMap.get k _) as [a'|] eqn:Hget; [|by left].
  injection Hk as ->. right.
  apply loop_upserts_inv in Hget as [?|(j & a0 & b & Hj & _ & Ht & -> & ->)];
    [done|].
  split; [by apply accountOf_row_ok|]. split; [done|].
  apply list_elem_of_fmap. exists a0. split; [done|].
  by eapply list_elem_of_lookup_2.
Qed.

End SaveAccountsMore.

(** ** The counts logged by [saveAccounts] *)

Section Counts.
Context {V : Type}.
Implicit Types (m : JsMap.t V) (k : string) (v : V).

Lemma JsMap_size_set_le m k v : (JsMap.size (JsMap.set k v m) ≤ S (JsMap.size m))%nat.
Proof.
  unfold JsMap.size. induction m as [|[k0 v0] m IH]; simpl; [lia|].
  destruct (decide (k = k0)); simpl; lia.
Qed.

Lemma JsMap_size_set_fresh m k v :
  k ∉ JsMap.keys m → JsMap.size (JsMap.set k v m) = S (JsMap.size m).
Proof.
  unfold JsMap.size, JsMap.keys. induction m as [|[k0 v0] m IH]; [done|].
  rewrite fmap_cons, not_elem_of_cons. intros [Hne Hk]. simpl.
  rewrite decide_False by done. simpl. by rewrite IH.
Qed.

End Counts.

Section LoopCounts.
Variable encodeId : bytes → string.
Variable block : SubstrateBlock.
Variable balances : list (option Balance.t).

Lemma loop_sizes_le rest : ∀ i acc del,
  (JsMap.size (saveAccounts_loop encodeId block balances i rest acc del).1
   + JsMap.size (saveAccounts_loop encodeId block balances i rest acc del).2
   ≤ JsMap.size acc + JsMap.size del + length rest)%nat.
Proof.
  induction rest as [|a rest IH]; intros i acc del; simpl; [lia|].
  destruct (balanceAt balances i) as [b|].
  - destruct (0 <? _).
    + etransitivity; [apply IH|].
      pose proof (JsMap_size_set_le acc (encodeId a)
                    (Account.mk (encodeId a) (Some (Balance.free b))
                       (Some (Balance.reserved b))
                       (Some (Balance.free b + Balance.reserved b))
                       (Some (height block)))). lia.
    + etransitivity; [apply IH|].
      pose proof (JsMap_size_set_le del (encodeId a)
                    (Account.mk (encodeId a) None None None None)). lia.
  - etransitivity; [apply IH|]. lia.
Qed.

Lemma loop_sizes_eq rest : ∀ i acc del,
  NoDup (encodeId <$> rest) →
  (∀ a, a ∈ rest → (encodeId a ∉ JsMap.keys acc) ∧ (encodeId a ∉ JsMap.keys del)) →
  (∀ j, (j < length rest)%nat → is_Some (balanceAt balances (i + j)%nat)) →
  (JsMap.size (saveAccounts_loop encodeId block balances i rest acc del).1
   + JsMap.size (saveAccounts_loop encodeId block balances i rest acc del).2
   = JsMap.size acc + JsMap.size del + length rest)%nat.
Proof.
  induction rest as [|a rest IH]; intros i acc del Hnd Hfresh Hall;
    [simpl; lia|].
  rewrite fmap_cons in Hnd. apply NoDup_cons in Hnd as [Ha Hnd].
  destruct (Hfresh a) as [Hacc Hdel]; [apply elem_of_cons; by left|].
  assert (∀ j, (j < length rest)%nat →
               is_Some (balanceAt balances (S i + j)%nat)) as Hall'.
  { intros j Hj. specialize (Hall (S j)). rewrite Nat.add_succ_r in Hall.
    apply Hall. simpl. lia. }
  assert (∀ a', a' ∈ rest → encodeId a' ≠ encodeId a) as Hne.
  { intros a' Hin Heq. apply Ha. rewrite <- Heq.
    apply list_elem_of_fmap. by exists a'. }
  destruct (Hall 0%nat) as [b Hb]; [simpl; lia|]. rewrite Nat.add_0_r in Hb.
  cbn [saveAccounts_loop]. rewrite Hb.
  destruct (0 <? _); rewrite IH; try done.
  - rewrite JsMap_size_set_fresh by done. simpl. lia.
  - intros a' Hin. destruct (Hfresh a') as [? ?]; [apply elem_of_cons; by right|].
    split; [|done]. intros [?|?]%JsMap_keys_set; [by apply (Hne a')|done].
  - rewrite JsMap_size_set_fresh by done. simpl. lia.
  - intros a' Hin. destruct (Hfresh a') as [? ?]; [apply elem_of_cons; by right|].
    split; [done|]. intros [?|?]%JsMap_keys_set; [by apply (Hne a')|done].
Qed.

End LoopCounts.

(** X4.  The two counts [saveAccounts] logs never exceed, together, the
    number of requested accounts; when the encoded ids are distinct and
    every requested account has a fetched entry, they add up to it: each
    account is counted once, as updated or as deleted. *)
Theorem saveAccounts_logged_counts
  (encodeId : bytes → string)
  (getBalances : Context → SubstrateBlock → list bytes →
                 result (option (list (option Balance.t))))
  (ctx : Context) (w : World) (block : SubstrateBlock)
  (accountIds : list bytes) (balances : list (option Balance.t)) (w' : World) :
  getBalances ctx block accountIds = Ok (Some balances) →
  saveAccounts encodeId getBalances ctx w block accountIds = Ok w' →
  ∃ updated deleted,
    log w' = log w ++ [LogAccounts updated deleted] ∧
    (updated + deleted ≤ length accountIds)%nat ∧
    (NoDup (encodeId <$> accountIds) →
     (∀ i, (i < length accountIds)%nat → is_Some (balanceAt balances i)) →
     (updated + deleted = length accountIds)%nat).
Proof.
  intros Hb Hs. rewrite (saveAccounts_fetched _ _ _ _ _ _ _ Hb) in Hs.
  injection Hs as <-. eexists _, _. split; [reflexivity|]. split.
  - apply (loop_sizes_le encodeId block balances accountIds 0 [] []).
  - intros Hnd Hall.
    apply (loop_sizes_eq encodeId block balances accountIds 0 [] []); [done| |done].
    intros a _. split; apply not_elem_of_nil.
Qed.

(** ** The two readers of [System.Account] *)

Lemma balanceAt_toBalances (data : list v1.AccountInfo) (i : nat) :
  balanceAt (toBalances data) i
  = (fun d => Balance.mk (v1.free (v1.data d)) (v1.reserved (v1.data d)))
      <$> data !! i.
Proof.
  unfold balanceAt, toBalances. rewrite list_lookup_fmap.
  by destruct (data !! i).
Qed.

Lemma Versioned_fetch_eval (ctx : Context) (block : SubstrateBlock)
  (accounts : list bytes) :
  match getStorageItemTypeHash (_chain ctx) "System" "Account" with
  | None => Versioned.getSystemAccountBalances ctx block accounts = Ok None
  | Some h =>
      if decide (h = SystemAccountStorage.hashV1 ∨ h = SystemAccountStorage.hashV3)
      then Versioned.getSystemAccountBalances ctx block accounts
           = Ok (Some (toBalances
                         (queryStorage (_chain ctx) (hash block) "System" "Account"
                            ((fun a => [a]) <$> accounts))))
      else Versioned.getSystemAccountBalances ctx block accounts
           = Err AssertionError
  end.
Proof.
  unfold Versioned.getSystemAccountBalances, SystemAccountStorage.getManyAsV1,
    SystemAccountStorage.getManyAsV3, SystemAccountStorage.isExists,
    SystemAccountStorage.isV1, SystemAccountStorage.isV3.
  destruct (getStorageItemTypeHash _ _ _) as [h|]; [|reflexivity].
  rewrite bool_decide_eq_true_2 by done. simpl.
  destruct (decide (h = SystemAccountStorage.hashV1)) as [->|H1].
  - rewrite decide_True by (by left). by rewrite !bool_decide_eq_true_2.
  - rewrite (bool_decide_eq_false_2 (Some h = Some SystemAccountStorage.hashV1))
      by (by intros [= ->]).
    destruct (decide (h = SystemAccountStorage.hashV3)) as [->|H3].
    + rewrite decide_True by (by right). by rewrite bool_decide_eq_true_2.
    + rewrite decide_False by tauto.
      by rewrite bool_decide_eq_false_2 by (by intros [= ->]).
Qed.

Lemma Versioned_fetch_Scheduled_fetch
  (ctx : Context) (block : SubstrateBlock) (accounts : list bytes)
  (r : option (list (option Balance.t))) :
  Versioned.getBalances ctx block accounts = Ok r →
  Scheduled.getBalances ctx block accounts = Ok r.
Proof.
  unfold Versioned.getBalances, Scheduled.getBalances.
  pose proof (Versioned_fetch_eval ctx block accounts) as Hv.
  unfold Scheduled.getSystemAccountBalances, SystemAccountStorage.isExists.
  destruct (getStorageItemTypeHash _ _ _) as [h|].
  - rewrite bool_decide_eq_true_2 by done. simpl.
    destruct (decide _); rewrite Hv; [done|discriminate].
  - rewrite bool_decide_eq_false_2 by (by intros []). simpl. by rewrite Hv.
Qed.

(** X5.  Whenever the fetch of the versioned revision completes, the fetch
    of the scheduling revision completes with the same result: checking the
    fingerprint only ever turns an answer into an error. *)
Theorem versioned_fetch_refines_scheduled_fetch
  (ctx : Context) (block : SubstrateBlock) (accounts : list bytes)
  (r : option (list (option Balance.t))) :
  Versioned.getBalances ctx block accounts = Ok r →
  Scheduled.getBalances ctx block accounts = Ok r.
Proof. apply Versioned_fetch_Scheduled_fetch. Qed.

Lemma versioned_fetch_refines_scheduled_fetch_witness :
  Scheduled.getBalances (Demo.ctx []) Demo.block7 [Demo.alice; Demo.bobby]
  = Ok (Some [Some (Balance.mk 30 20); Some (Balance.mk 0 0)]).
Proof.
  apply (versioned_fetch_refines_scheduled_fetch (Demo.ctx []) Demo.block7
           [Demo.alice; Demo.bobby]).
  vm_compute. reflexivity.
Defined.

(** X6.  In a fetched array (of either revision) the entry of index [i] is
    undefined exactly when the chain's answer has no element of that index;
    an entry within the answer is the [free] and [reserved] of the decoded
    account data. *)
Theorem fetched_entries_follow_the_answer
  (ctx : Context) (block : SubstrateBlock) (accounts : list bytes)
  (balances : list (option Balance.t)) (i : nat) :
  Scheduled.getBalances ctx block accounts = Ok (Some balances) ∨
  Versioned.getBalances ctx block accounts = Ok (Some balances) →
  let answer := queryStorage (_chain ctx) (hash block) "System" "Account"
                  ((fun a => [a]) <$> accounts) in
  balanceAt balances i
  = (fun d => Balance.mk (v1.free (v1.data d)) (v1.reserved (v1.data d)))
      <$> answer !! i ∧
  (balanceAt balances i = None ↔ (length answer ≤ i)%nat).
Proof.
  intros Hfetch answer.
  assert (Scheduled.getBalances ctx block accounts = Ok (Some balances)) as Hs.
  { destruct Hfetch as [?|Hv]; [done|].
    by apply Versioned_fetch_Scheduled_fetch. }
  unfold Scheduled.getBalances, Scheduled.getSystemAccountBalances in Hs.
  destruct (negb _); [done|]. injection Hs as <-.
  rewrite balanceAt_toBalances. split; [done|].
  fold answer. rewrite fmap_None. apply lookup_ge_None.
Qed.

(** ** More on the accumulation of touched accounts *)

Lemma adds_prefix t : ∀ s : JsSet.t,
  s `prefix_of` adds t s ∧ (length (adds t s) ≤ length s + length t)%nat.
Proof.
  induction t as [|x t IH]; intros s.
  - split; [done | simpl; lia].
  - change (adds (x :: t) s) with (adds t (JsSet.add x s)).
    destruct (IH (JsSet.add x s)) as [Hp Hl]. unfold JsSet.add in *.
    destruct (decide (x ∈ s)).
    + split; [done | simpl; lia].
    + split.
      * etransitivity; [|exact Hp]. by apply prefix_app_r.
      * rewrite length_app in Hl. simpl in *. lia.
Qed.

Section Outcome.
Variable toHex : bytes → string.
Variable classes : events.Classes.
Variable ctx : Context.

(** An item adds at most two hex ids, or throws [UnknownVersionError]; which
    of the two does not depend on the set. *)
Lemma processBalancesEventItem_outcome (item : Item) :
  (∃ t, (length t ≤ 2)%nat ∧
        ∀ s, processBalancesEventItem toHex classes ctx item s = Ok (adds t s)) ∨
  (∃ n, ∀ s, processBalancesEventItem toHex classes ctx item s
             = Err (UnknownVersionError n)).
Proof.
  unfold processBalancesEventItem, getBalanceSetAccount, getEndowedAccount,
    getDepositAccount, getReservedAccount, getUnreservedAccount,
    getWithdrawAccount, getSlashedAccount, getTransferAccounts,
    getReserveRepatriatedAccounts.
  repeat match goal with
         | |- context [if ?b then _ else _] => destruct b
         end;
    simpl;
    first [ left; exists []; split; [simpl; lia | reflexivity]
          | left; eexists [_]; split; [simpl; lia | reflexivity]
          | left; eexists [_; _]; split; [simpl; lia | reflexivity]
          | right; eexists; reflexivity ].
Qed.

Lemma forOf_process_prefix (its : list Item) : ∀ (s s' : JsSet.t),
  forOf (fun s item => processBalancesEventItem toHex classes ctx item s) its s
    = Ok s' →
  s `prefix_of` s' ∧ (length s' ≤ length s + 2 * length its)%nat.
Proof.
  induction its as [|item its IH]; intros s s' Hrun; simpl in Hrun.
  - injection Hrun as <-. split; [done | lia].
  - destruct (processBalancesEventItem_outcome item) as [(t & Ht & Hok)|[n He]];
      [|by rewrite He in Hrun].
    rewrite Hok in Hrun. simpl in Hrun.
    destruct (IH _ _ Hrun) as [Hp Hl]. destruct (adds_prefix t s) as [Hp' Hl'].
    split; [by etransitivity|]. simpl. lia.
Qed.

End Outcome.

(** X7.  Accumulating over the items of a window only appends to the set:
    what was in it stays, in the same order, and it grows by at most two ids
    per item. *)
Theorem accumulation_only_appends
  (toHex : bytes → string) (classes : events.Classes) (ctx : Context)
  (its : list Item) (s s' : JsSet.t) :
  forOf (fun s item => processBalancesEventItem toHex classes ctx item s) its s
    = Ok s' →
  s `prefix_of` s' ∧ (length s' ≤ length s + 2 * length its)%nat.
Proof. apply forOf_process_prefix. Qed.

Lemma accumulation_only_appends_witness :
  ["alice"; "carol"]%string `prefix_of` ["alice"; "carol"; "bobby"]%string ∧
  (length ["alice"; "carol"; "bobby"]%string ≤ 2 + 2 * 2)%nat.
Proof.
  apply (accumulation_only_appends Demo.toHex Demo.classes (Demo.ctx [])
           [Demo.deposit Demo.carol; Demo.transfer Demo.alice Demo.bobby]
           ["alice"; "carol"]%string ["alice"; "carol"; "bobby"]%string).
  vm_compute. reflexivity.
Defined.

(** X8.  Each of the nine cases of [processBalancesEventItem] throws
    [UnknownVersionError], carrying the name of the event's class, when the
    event matches neither of the two versions its extractor knows: V1 and
    V3110, except for [Withdraw] and [Slashed], which know V3100 and V3110
    and for which a V1 match makes no difference. *)
Theorem supported_events_throw_on_unknown_version
  (toHex : bytes → string) (classes : events.Classes) (ctx : Context)
  (item : Item) (s : JsSet.t) :
  let run := processBalancesEventItem toHex classes ctx item s in
  let unknown {T N} (d : events.EventData T N) :=
    run = Err (UnknownVersionError (events.constructor_name d)) in
  (name item = "Balances.BalanceSet"%string →
   events.isV1 (events.BalancesBalanceSetEvent classes ctx (event item)) = false →
   events.isV3110 (events.BalancesBalanceSetEvent classes ctx (event item)) = false →
   unknown (events.BalancesBalanceSetEvent classes ctx (event item))) ∧
  (name item = "Balances.Endowed"%string →
   events.isV1 (events.BalancesEndowedEvent classes ctx (event item)) = false →
   events.isV3110 (events.BalancesEndowedEvent classes ctx (event item)) = false →
   unknown (events.BalancesEndowedEvent classes ctx (event item))) ∧
  (name item = "Balances.Deposit"%string →
   events.isV1 (events.BalancesDepositEvent classes ctx (event item)) = false →
   events.isV3110 (events.BalancesDepositEvent classes ctx (event item)) = false →
   unknown (events.BalancesDepositEvent classes ctx (event item))) ∧
  (name item = "Balances.Reserved"%string →
   events.isV1 (events.BalancesReservedEvent classes ctx (event item)) = false →
   events.isV3110 (events.BalancesReservedEvent classes ctx (event item)) = false →
   unknown (events.BalancesReservedEvent classes ctx (event item))) ∧
  (name item = "Balances.Unreserved"%string →
   events.isV1 (events.BalancesUnreservedEvent classes ctx (event item)) = false →
   events.isV3110 (events.BalancesUnreservedEvent classes ctx (event item)) = false →
   unknown (events.BalancesUnreservedEvent classes ctx (event item))) ∧
  (name item = "Balances.Withdraw"%string →
   events.isV3100 (events.BalancesWithdrawEvent classes ctx (event item)) = false →
   events.isV3110 (events.BalancesWithdrawEvent classes ctx (event item)) = false →
   unknown (events.BalancesWithdrawEvent classes ctx (event item))) ∧
  (name item = "Balances.Slashed"%string →
   events.isV3100 (events.BalancesSlashedEvent classes ctx (event item)) = false →
   events.isV3110 (events.BalancesSlashedEvent classes ctx (event item)) = false →
   unknown (events.BalancesSlashedEvent classes ctx (event item))) ∧
  (name item = "Balances.Transfer"%string →
   events.isV1 (events.BalancesTransferEvent classes ctx (event item)) = false →
   events.isV3110 (events.BalancesTransferEvent classes ctx (event item)) = false →
   unknown (events.BalancesTransferEvent classes ctx (event item))) ∧
  (name item = "Balances.ReserveRepatriated"%string →
   events.isV1 (events.BalancesReserveRepatriatedEvent classes ctx (event item)) = false →
   events.isV3110 (events.BalancesReserveRepatriatedEvent classes ctx (event item)) = false →
   unknown (events.BalancesReserveRepatriatedEvent classes ctx (event item))).
Proof.
  intros run unknown. subst run unknown. cbv beta.
  repeat split; intros Hn H1 H2;
    unfold processBalancesEventItem; rewrite Hn; simpl;
    unfold getBalanceSetAccount, getEndowedAccount, getDepositAccount,
      getReservedAccount, getUnreservedAccount, getWithdrawAccount,
      getSlashedAccount, getTransferAccounts, getReserveRepatriatedAccounts;
    rewrite H1, H2; reflexivity.
Qed.

Lemma supported_events_throw_on_unknown_version_witness :
  processBalancesEventItem Demo.toHex Demo.classes
    (mkContext (Demo.chain "v1" (Some Demo.hashV1) (Some Demo.hashIssuance) 10) [])
    (mkItem "event" "Balances.Withdraw" (mkEvent "Balances.Withdraw" Demo.alice))
    []
  = Err (UnknownVersionError "BalancesWithdrawEvent").
Proof.
  apply (supported_events_throw_on_unknown_version Demo.toHex Demo.classes
           (mkContext (Demo.chain "v1" (Some Demo.hashV1) (Some Demo.hashIssuance) 10) [])
           (mkItem "event" "Balances.Withdraw" (mkEvent "Balances.Withdraw" Demo.alice))
           []); reflexivity.
Defined.

(** ** Items the versioned revision does not look at *)

Section Irrelevant.
Variable toHex : bytes → string.
Variable classes : events.Classes.
Variable ctx : Context.

Lemma processItem_irrelevant (item : Item) (s : JsSet.t) :
  relevant item = false →
  Versioned.processItem toHex classes ctx s item = Ok s.
Proof.
  unfold relevant, Versioned.processItem. intros Hrel.
  destruct (String.eqb (kind item) "event"); [|done]. simpl in Hrel.
  apply bool_decide_eq_false in Hrel. unfold processBalancesEventItem.
  repeat match goal with
         | |- context [String.eqb (name item) ?n] =>
             let E := fresh "E" in
             destruct (String.eqb (name item) n) eqn:E;
             [ apply String.eqb_eq in E; exfalso; apply Hrel; rewrite E;
               unfold supportedNames; rewrite !elem_of_cons; naive_solver
             | clear E ]
         end.
  done.
Qed.

Lemma forOf_processItem_filter (its : list Item) : ∀ s : JsSet.t,
  forOf (Versioned.processItem toHex classes ctx) its s
  = forOf (Versioned.processItem toHex classes ctx)
      (filter (fun item => relevant item = true) its) s.
Proof.
  induction its as [|item its IH]; intros s; [done|].
  destruct (relevant item) eqn:Hrel.
  - rewrite filter_cons_True by done. simpl.
    destruct (Versioned.processItem toHex classes ctx s item); simpl; [apply IH|done].
  - rewrite filter_cons_False by (by rewrite Hrel). simpl.
    rewrite processItem_irrelevant by done. simpl. apply IH.
Qed.

End Irrelevant.

(** X9.  The inner loop of the versioned revision skips every item that is
    not an event with one of the nine names: over a block's items it gives
    what it gives over the events with these names alone, error included. *)
Theorem versioned_loop_skips_other_items
  (toHex : bytes → string) (classes : events.Classes) (ctx : Context)
  (its : list Item) (s : JsSet.t) :
  forOf (Versioned.processItem toHex classes ctx) its s
  = forOf (Versioned.processItem toHex classes ctx)
      (filter (fun item => relevant item = true) its) s.
Proof. apply forOf_processItem_filter. Qed.

(** ** A failing event stops the batch *)

Section LoopErrors.
Context {A S : Type}.
Variable body : S → A → result S.
Variable P : error → Prop.

Lemma forOf_error_kind (xs : list A) : ∀ s e,
  (∀ s x e, x ∈ xs → body s x = Err e → P e) →
  forOf body xs s = Err e → P e.
Proof.
  induction xs as [|x xs IH]; intros s e HP Hrun; simpl in Hrun; [done|].
  destruct (body s x) as [s'|e'] eqn:Hx; simpl in Hrun.
  - eapply IH; [|exact Hrun]. intros s0 y e0 Hy. apply HP, elem_of_cons. by right.
  - injection Hrun as <-. eapply HP; [|exact Hx]. apply elem_of_cons. by left.
Qed.

Lemma forOf_failing_element (xs : list A) x : ∀ s,
  x ∈ xs →
  (∀ s, ∃ e, body s x = Err e) →
  ∃ e, forOf body xs s = Err e.
Proof.
  induction xs as [|y xs IH]; intros s Hin Hx; [by apply elem_of_nil in Hin|].
  simpl. apply elem_of_cons in Hin as [<-|Hin].
  - destruct (Hx s) as [e ->]. by exists e.
  - destruct (body s y) as [s'|e]; simpl; [by apply IH | by exists e].
Qed.

End LoopErrors.

Lemma Versioned_processItem_error (toHex : bytes → string)
  (classes : events.Classes) (ctx : Context) (s : JsSet.t) (item : Item) e :
  Versioned.processItem toHex classes ctx s item = Err e →
  ∃ n, e = UnknownVersionError n.
Proof.
  unfold Versioned.processItem. destruct (String.eqb _ _); [|done].
  destruct (processBalancesEventItem_outcome toHex classes ctx item)
    as [(t & _ & Hok)|[n He]].
  - by rewrite Hok.
  - rewrite He. intros [= <-]. by exists n.
Qed.

(** X10.  In the versioned revision an event that cannot be decoded,
    anywhere in the batch, stops [processBalances] with an
    [UnknownVersionError]: no snapshot is inserted and no account is
    reconciled for that batch. *)
Theorem undecodable_event_aborts_batch
  (toHex : bytes → string) (decodeHex : string → bytes)
  (encodeId : bytes → string) (classes : events.Classes)
  (ctx : Context) (w : World) (block : BlockData) (item : Item)
  (s0 : JsSet.t) (e : error) :
  block ∈ blocks ctx → item ∈ items block →
  kind item = "event"%string →
  processBalancesEventItem toHex classes ctx item s0 = Err e →
  ∃ n, Versioned.processBalances toHex decodeHex encodeId classes ctx w
       = Err (UnknownVersionError n).
Proof.
  intros Hb Hi Hk He.
  assert (∀ s, ∃ e', Versioned.processItem toHex classes ctx s item = Err e')
    as Hitem.
  { intros s. unfold Versioned.processItem. rewrite Hk. simpl.
    destruct (processBalancesEventItem_outcome toHex classes ctx item)
      as [(t & _ & Hok)|[n Hn]]; [by rewrite Hok in He|].
    rewrite Hn. eauto. }
  destruct (forOf_failing_element
              (fun s b => forOf (Versioned.processItem toHex classes ctx) (items b) s)
              (blocks ctx) block JsSet.empty Hb) as [e' Hrun].
  { intros s. by apply (forOf_failing_element _ _ item). }
  assert (∃ n, e' = UnknownVersionError n) as [n ->].
  { eapply (forOf_error_kind _ (fun e => ∃ n, e = UnknownVersionError n));
      [|exact Hrun].
    intros s b e1 _ Hinner.
    eapply (forOf_error_kind _ (fun e => ∃ n, e = UnknownVersionError n));
      [|exact Hinner].
    intros s1 it e2 _. apply Versioned_processItem_error. }
  exists n. unfold Versioned.processBalances. by rewrite Hrun.
Qed.

Lemma undecodable_event_aborts_batch_witness :
  ∃ n,
    Versioned.processBalances Demo.toHex Demo.decodeHex Demo.encodeId Demo.classes
      (Demo.ctx [mkBlockData Demo.block7
                   [Demo.deposit Demo.alice;
                    mkItem "event" "Balances.Slashed"
                      (mkEvent "Balances.Slashed" Demo.carol)]])
      Demo.world0
    = Err (UnknownVersionError n).
Proof.
  apply (undecodable_event_aborts_batch Demo.toHex Demo.decodeHex Demo.encodeId
           Demo.classes _ Demo.world0
           (mkBlockData Demo.block7
              [Demo.deposit Demo.alice;
               mkItem "event" "Balances.Slashed"
                 (mkEvent "Balances.Slashed" Demo.carol)])
           (mkItem "event" "Balances.Slashed" (mkEvent "Balances.Slashed" Demo.carol))
           [] (UnknownVersionError "BalancesSlashedEvent")).
  - apply list_elem_of_singleton. reflexivity.
  - apply elem_of_cons. right. apply list_elem_of_singleton. reflexivity.
  - reflexivity.
  - vm_compute. reflexivity.
Defined.

(** X11.  With codecs that round-trip ([decodeHex] after [toHex] is the
    identity) and an injective address encoding, the ids a window hands to
    [saveAccounts] have pairwise distinct encodings. *)
Theorem window_ids_have_distinct_encodings
  (toHex : bytes → string) (decodeHex : string → bytes)
  (encodeId : bytes → string) (classes : events.Classes) (ctx : Context)
  (its : list Item) (s : JsSet.t) :
  (∀ a, decodeHex (toHex a) = a) →
  (∀ a a', encodeId a = encodeId a' → a = a') →
  forOf (fun s item => processBalancesEventItem toHex classes ctx item s)
    its JsSet.empty = Ok s →
  NoDup (encodeId <$> (decodeHex <$> JsSet.spread s)).
Proof. intros Hrt Hinj. by apply window_ids_distinct. Qed.

Lemma Demo_encodeId_inj a a' : Demo.encodeId a = Demo.encodeId a' → a = a'.
Proof.
  unfold Demo.encodeId. intros H. injection H as Heq.
  change (string_of_list_byte a = string_of_list_byte a') in Heq.
  rewrite <- (list_byte_of_string_of_list_byte a),
          <- (list_byte_of_string_of_list_byte a').
  by rewrite Heq.
Defined.

Lemma window_ids_have_distinct_encodings_witness :
  NoDup (Demo.encodeId <$> (Demo.decodeHex <$> ["alice"; "carol"]%string)).
Proof.
  apply (window_ids_have_distinct_encodings Demo.toHex Demo.decodeHex
           Demo.encodeId Demo.classes (Demo.ctx []) Demo.window1).
  - exact list_byte_of_string_of_list_byte.
  - exact Demo_encodeId_inj.
  - vm_compute. reflexivity.
Defined.

(** ** More on snapshots *)

Lemma saveRegularChainState_fresh (ctx : Context) (w : World)
  (block : SubstrateBlock) w' :
  saveRegularChainState ctx w block = Ok w' →
  id block ∉ ChainState.id <$> chainStates (store w).
Proof.
  unfold saveRegularChainState.
  destruct (getChainState ctx w block) as [row|] eqn:Hrow; simpl; [|done].
  apply getChainState_inv in Hrow as [Hid _].
  unfold StoreOps.insert. rewrite Hid. by destruct (decide _).
Qed.

Lemma getChainState_other_world (ctx : Context) (w w' : World)
  (block : SubstrateBlock) row :
  getChainState ctx w block = Ok row →
  ∃ row', getChainState ctx w' block = Ok row' ∧
          ChainState.id row' = id block.
Proof.
  unfold getChainState. destruct (getTotalIssuance ctx block); simpl; [|done].
  intros _. eauto.
Qed.

(** X12.  A batch of the versioned revision that completes appends exactly
    one row to [chain_state], carrying the id, height and timestamp of the
    last block of the batch; the earlier rows are not modified, the
    "current" table is not written, and the ids of the table stay pairwise
    distinct. *)
Theorem versioned_batch_appends_one_snapshot
  (toHex : bytes → string) (decodeHex : string → bytes)
  (encodeId : bytes → string) (classes : events.Classes)
  (ctx : Context) (w w' : World) :
  Versioned.processBalances toHex decodeHex encodeId classes ctx w = Ok w' →
  ∃ block row,
    last (blocks ctx) = Some block ∧
    chainStates (store w') = chainStates (store w) ++ [row] ∧
    ChainState.id row = id (header block) ∧
    ChainState.blockNumber row = height (header block) ∧
    ChainState.timestamp row = timestamp (header block) ∧
    currentChainStates (store w') = currentChainStates (store w) ∧
    (NoDup (ChainState.id <$> chainStates (store w)) →
     NoDup (ChainState.id <$> chainStates (store w'))).
Proof.
  unfold Versioned.processBalances.
  destruct (forOf _ (blocks ctx) _) as [ids|]; simpl; [|done].
  destruct (last (blocks ctx)) as [block|]; [|done].
  destruct (saveRegularChainState ctx w (header block)) as [w1|] eqn:Hs1;
    simpl; [|done].
  intros Hs2. apply saveAccounts_chainStates in Hs2 as [Hcs Hccs].
  pose proof (saveRegularChainState_fresh _ _ _ _ Hs1) as Hfresh.
  apply saveRegularChainState_inv in Hs1 as (row & Hrow & _ & Hcs1 & Hccs1).
  apply getChainState_inv in Hrow as (Hid & Hts & Hbn & _).
  exists block, row. rewrite Hcs, Hcs1, Hccs, Hccs1.
  repeat split; try done.
  intros Hnd. rewrite fmap_app. apply NoDup_app. split; [done|].
  split; [|apply NoDup_singleton].
  intros x Hx ->%list_elem_of_singleton. apply Hfresh. by rewrite <- Hid.
Qed.

Lemma versioned_batch_appends_one_snapshot_witness :
  ∃ block row,
    last (blocks (Demo.ctx Demo.batch)) = Some block ∧
    ChainState.id row = id (header block) ∧
    ChainState.blockNumber row = height (header block).
Proof.
  destruct (versioned_batch_appends_one_snapshot Demo.toHex Demo.decodeHex
              Demo.encodeId Demo.classes (Demo.ctx Demo.batch) Demo.emptyWorld
              (mkWorld
                 (mkStore
                    (<["id:carol"%string :=
                         Account.mk "id:carol" (Some 7) (Some 0) (Some 7) (Some 7)]>
                       (<["id:alice"%string :=
                            Account.mk "id:alice" (Some 30) (Some 20) (Some 50)
                              (Some 7)]> ∅))
                    [ChainState.mk "0000000007-abcde" 43200000 7 1000 0] [])
                 [LogState 7; LogAccounts 2 0]))
    as (block & row & Hlast & _ & Hid & Hbn & _).
  - vm_compute. reflexivity.
  - by exists block, row.
Defined.

(** X13.  Running the versioned revision again on a batch it has completed
    fails: the snapshot of the batch's last block is already in
    [chain_state], whose primary key is the block's id, and the insert is
    rejected. *)
Theorem versioned_batch_replay_is_rejected
  (toHex : bytes → string) (decodeHex : string → bytes)
  (encodeId : bytes → string) (classes : events.Classes)
  (ctx : Context) (w w' : World) :
  Versioned.processBalances toHex decodeHex encodeId classes ctx w = Ok w' →
  Versioned.processBalances toHex decodeHex encodeId classes ctx w'
  = Err QueryFailedError.
Proof.
  unfold Versioned.processBalances.
  destruct (forOf _ (blocks ctx) _) as [ids|]; simpl; [|done].
  destruct (last (blocks ctx)) as [block|]; [|done].
  destruct (saveRegularChainState ctx w (header block)) as [w1|] eqn:Hs1;
    simpl; [|done].
  intros Hs2. apply saveAccounts_chainStates in Hs2 as [Hcs _].
  apply saveRegularChainState_inv in Hs1 as (row & Hrow & _ & Hcs1 & _).
  destruct (getChainState_other_world ctx w w' _ _ Hrow) as (row' & Hrow' & Hid').
  apply getChainState_inv in Hrow as (Hid & _).
  unfold saveRegularChainState. rewrite Hrow'. simpl.
  unfold StoreOps.insert. rewrite decide_True; [done|].
  rewrite Hcs, Hcs1, fmap_app, Hid', <- Hid. apply elem_of_app. right.
  apply list_elem_of_singleton. reflexivity.
Qed.

Lemma versioned_batch_replay_is_rejected_witness :
  Versioned.processBalances Demo.toHex Demo.decodeHex Demo.encodeId Demo.classes
    (Demo.ctx Demo.batch)
    (mkWorld
       (mkStore
          (<["id:carol"%string :=
               Account.mk "id:carol" (Some 7) (Some 0) (Some 7) (Some 7)]>
             (<["id:alice"%string :=
                  Account.mk "id:alice" (Some 30) (Some 20) (Some 50) (Some 7)]> ∅))
          [ChainState.mk "0000000007-abcde" 43200000 7 1000 0] [])
       [LogState 7; LogAccounts 2 0])
  = Err QueryFailedError.
Proof.
  apply (versioned_batch_replay_is_rejected Demo.toHex Demo.decodeHex
           Demo.encodeId Demo.classes (Demo.ctx Demo.batch) Demo.emptyWorld).
  vm_compute. reflexivity.
Defined.

(** ** The snapshots of a run of the scheduling revision *)

Lemma lastTimestamp_cons t0 r rows :
  lastTimestamp t0 (r :: rows) = lastTimestamp (ChainState.timestamp r) rows.
Proof.
  unfold lastTimestamp. destruct rows as [|r' rows]; [done|].
  rewrite last_cons_cons.
  destruct (last (r' :: rows)) eqn:E; [done|]. by apply last_None in E.
Qed.

Lemma spaced_lastTimestamp t0 rows : spaced t0 rows → t0 ≤ lastTimestamp t0 rows.
Proof.
  revert t0. induction rows as [|r rows IH]; intros t0; simpl.
  - intros _. unfold lastTimestamp. simpl. lia.
  - intros [Hgap Hrest]. rewrite lastTimestamp_cons.
    specialize (IH _ Hrest). unfold Scheduled.SAVE_PERIOD in Hgap. lia.
Qed.

Section ScheduledRun.
Variable toHex : bytes → string.
Variable decodeHex : string → bytes.
Variable encodeId : bytes → string.
Variable classes : events.Classes.
Variable ctx : Context.

Abbreviation step := (Scheduled.processBlock toHex decodeHex encodeId classes ctx).

Lemma processBlock_step (st st' : Scheduled.Loop) (block : BlockData) :
  step st block = Ok st' →
  let ts := timestamp (header block) in
  let t0 := Scheduled.initTimestamp (Scheduled.world st)
              (Scheduled.lastStateTimestamp st) in
  (Scheduled.SAVE_PERIOD ≤ ts - t0 ∧
   (∃ row, chainStates (store (Scheduled.world st'))
             = chainStates (store (Scheduled.world st)) ++ [row] ∧
           ChainState.timestamp row = ts) ∧
   Scheduled.lastStateTimestamp st' = Some ts) ∨
  (ts - t0 < Scheduled.SAVE_PERIOD ∧
   chainStates (store (Scheduled.world st'))
     = chainStates (store (Scheduled.world st)) ∧
   Scheduled.lastStateTimestamp st' = Some t0).
Proof.
  intros Hstep ts t0. unfold Scheduled.processBlock in Hstep.
  destruct (forOf _ (items block) _) as [ids|]; simpl in Hstep; [|done].
  fold ts t0 in Hstep.
  destruct (Scheduled.SAVE_PERIOD <=? ts - t0) eqn:Hcmp.
  - apply Z.leb_le in Hcmp. left. split; [done|].
    destruct (Scheduled.saveAccounts _ _ _ _ _) as [w1|] eqn:Hs1;
      simpl in Hstep; [|done].
    destruct (saveRegularChainState ctx w1 (header block)) as [w2|] eqn:Hs2;
      simpl in Hstep; [|done].
    injection Hstep as <-. simpl.
    apply saveAccounts_chainStates in Hs1 as [Hcs _].
    apply saveRegularChainState_inv in Hs2 as (row & Hrow & _ & Hcs2 & _).
    apply getChainState_inv in Hrow as (_ & Hts & _).
    split; [|done]. exists row. by rewrite Hcs2, Hcs.
  - apply Z.leb_gt in Hcmp. right. by injection Hstep as <-.
Qed.

Lemma forOf_processBlock_rows (bs : list BlockData) : ∀ (st st' : Scheduled.Loop),
  forOf step bs st = Ok st' →
  let t0 := Scheduled.initTimestamp (Scheduled.world st)
              (Scheduled.lastStateTimestamp st) in
  ∃ rows,
    chainStates (store (Scheduled.world st'))
      = chainStates (store (Scheduled.world st)) ++ rows ∧
    spaced t0 rows ∧
    (length rows ≤ length bs)%nat ∧
    (bs ≠ [] → Scheduled.lastStateTimestamp st' = Some (lastTimestamp t0 rows)).
Proof.
  induction bs as [|b bs IH]; intros st st' Hrun t0; simpl in Hrun.
  - injection Hrun as <-. exists []. rewrite app_nil_r. simpl.
    split; [done|]. split; [done|]. split; [lia|done].
  - destruct (step st b) as [st1|] eqn:Hb; simpl in Hrun; [|done].
    destruct (IH _ _ Hrun) as (rows & Hrows & Hsp & Hlen & Hlast).
    assert (∀ t1, Scheduled.lastStateTimestamp st1 = Some t1 →
                  Scheduled.lastStateTimestamp st' = Some (lastTimestamp t1 rows))
      as Hfinal.
    { intros t1 Ht1. destruct bs as [|b' bs].
      - simpl in Hrun. injection Hrun as <-.
        assert (rows = []) as -> by (destruct rows; [done | simpl in Hlen; lia]).
        by rewrite Ht1.
      - rewrite Hlast by done. by rewrite Ht1. }
    apply processBlock_step in Hb. fold t0 in Hb.
    destruct Hb as [(Hgap & (row & Hcs & Hts) & Ht1)|(Hgap & Hcs & Ht1)].
    + exists (row :: rows). rewrite Ht1 in Hsp. simpl in Hsp.
      rewrite Hrows, Hcs, <- app_assoc.
      split; [done|]. split; [simpl; by rewrite Hts|].
      split; [simpl; lia|].
      intros _. rewrite lastTimestamp_cons, Hts. by apply Hfinal.
    + exists rows. rewrite Ht1 in Hsp. simpl in Hsp.
      rewrite Hrows, Hcs.
      split; [done|]. split; [done|]. split; [simpl; lia|].
      intros _. by apply Hfinal.
Qed.

End ScheduledRun.

(** X14.  Over the blocks of a batch the loop of the scheduling revision
    only appends to [chain_state], at most one row per block; each appended
    row lies at least [SAVE_PERIOD] of on-chain time after the one before,
    the first one after the timestamp the scheduler started from; and after
    a block has been processed [lastStateTimestamp] is the timestamp of the
    last appended row (the starting one without rows), so it never moves
    backwards. *)
Theorem scheduled_snapshots_are_spaced
  (toHex : bytes → string) (decodeHex : string → bytes)
  (encodeId : bytes → string) (classes : events.Classes)
  (ctx : Context) (bs : list BlockData) (st st' : Scheduled.Loop) :
  forOf (Scheduled.processBlock toHex decodeHex encodeId classes ctx) bs st
    = Ok st' →
  let t0 := Scheduled.initTimestamp (Scheduled.world st)
              (Scheduled.lastStateTimestamp st) in
  ∃ rows,
    chainStates (store (Scheduled.world st'))
      = chainStates (store (Scheduled.world st)) ++ rows ∧
    spaced t0 rows ∧
    (length rows ≤ length bs)%nat ∧
    t0 ≤ lastTimestamp t0 rows ∧
    (bs ≠ [] → Scheduled.lastStateTimestamp st' = Some (lastTimestamp t0 rows)).
Proof.
  intros Hrun t0.
  destruct (forOf_processBlock_rows toHex decodeHex encodeId classes ctx
              bs st st' Hrun) as (rows & Hrows & Hsp & Hlen & Hlast).
  exists rows. repeat split; try done. by apply spaced_lastTimestamp.
Qed.

Lemma scheduled_snapshots_are_spaced_witness :
  ∃ st',
    forOf (Scheduled.processBlock Demo.toHex Demo.decodeHex Demo.encodeId
             Demo.classes (Demo.ctx []))
      [mkBlockData Demo.block7 [Demo.transfer Demo.alice Demo.carol];
       mkBlockData (mkBlock "0000000008-bcdef" 8 "0xbcdef" 43212000)
         [Demo.deposit Demo.carol]]
      (Scheduled.mkLoop Demo.emptyWorld None JsSet.empty) = Ok st' ∧
    ∃ rows,
      chainStates (store (Scheduled.world st')) = [] ++ rows ∧
      (length rows ≤ 2)%nat ∧
      Scheduled.lastStateTimestamp st' = Some (lastTimestamp 0 rows).
Proof.
  eexists. split; [vm_compute; reflexivity|].
  pose proof (scheduled_snapshots_are_spaced Demo.toHex Demo.decodeHex
                Demo.encodeId Demo.classes (Demo.ctx [])
                [mkBlockData Demo.block7 [Demo.transfer Demo.alice Demo.carol];
                 mkBlockData (mkBlock "0000000008-bcdef" 8 "0xbcdef" 43212000)
                   [Demo.deposit Demo.carol]]
                (Scheduled.mkLoop Demo.emptyWorld None JsSet.empty) _
                ltac:(vm_compute; reflexivity)) as H.
  cbv zeta in H. destruct H as (rows & H1 & _ & H3 & _ & H5).
  exists rows. split; [exact H1|]. split; [exact H3|]. by apply H5.
Defined.

(** ** The row invariant over a batch *)

(** X15.  A completed batch of the versioned revision, and a completed
    iteration of the block loop of the scheduling revision, leave every row
    of the [Account] table with [total = free + reserved > 0] when they
    found it so: inserting the snapshot does not touch the table. *)
Theorem batch_preserves_account_invariant
  (toHex : bytes → string) (decodeHex : string → bytes)
  (encodeId : bytes → string) (classes : events.Classes) (ctx : Context) :
  (∀ w w',
     AccountInvariant (accounts (store w)) →
     Versioned.processBalances toHex decodeHex encodeId classes ctx w = Ok w' →
     AccountInvariant (accounts (store w'))) ∧
  (∀ st st' block,
     AccountInvariant (accounts (store (Scheduled.world st))) →
     Scheduled.processBlock toHex decodeHex encodeId classes ctx st block = Ok st' →
     AccountInvariant (accounts (store (Scheduled.world st')))).
Proof.
  split.
  - intros w w'. apply Versioned_processBalances_invariant.
  - intros st st' block. apply Scheduled_processBlock_invariant.
Qed.

Lemma batch_preserves_account_invariant_witness :
  AccountInvariant
    (<["id:carol"%string :=
         Account.mk "id:carol" (Some 7) (Some 0) (Some 7) (Some 7)]>
       (<["id:alice"%string :=
            Account.mk "id:alice" (Some 30) (Some 20) (Some 50) (Some 7)]> ∅)).
Proof.
  refine (proj1 (batch_preserves_account_invariant Demo.toHex Demo.decodeHex
                   Demo.encodeId Demo.classes (Demo.ctx Demo.batch))
            Demo.emptyWorld
            (mkWorld
               (mkStore
                  (<["id:carol"%string :=
                       Account.mk "id:carol" (Some 7) (Some 0) (Some 7) (Some 7)]>
                     (<["id:alice"%string :=
                          Account.mk "id:alice" (Some 30) (Some 20) (Some 50)
                            (Some 7)]> ∅))
                  [ChainState.mk "0000000007-abcde" 43200000 7 1000 0] [])
               [LogState 7; LogAccounts 2 0]) _ _).
  - apply (bool_decide_unpack _). vm_compute. reflexivity.
  - vm_compute. reflexivity.
Defined.

(** ** An empty batch *)

(** X16.  On a batch without blocks both revisions throw a [TypeError]
    (the header of [ctx.blocks[ctx.blocks.length - 1]] is read off
    [undefined]) whatever the store holds; nothing is reconciled and no
    snapshot is taken. *)
Theorem empty_batch_throws_TypeError
  (toHex : bytes → string) (decodeHex : string → bytes)
  (encodeId : bytes → string) (classes : events.Classes)
  (ctx : Context) (w : World) (ts : option Z) :
  blocks ctx = [] →
  Versioned.processBalances toHex decodeHex encodeId classes ctx w
    = Err TypeError ∧
  Scheduled.processBalances toHex decodeHex encodeId classes ctx w ts
    = Err TypeError.
Proof.
  intros Hb. unfold Versioned.processBalances, Scheduled.processBalances.
  rewrite Hb. done.
Qed.

Lemma empty_batch_throws_TypeError_witness :
  Versioned.processBalances Demo.toHex Demo.decodeHex Demo.encodeId Demo.classes
    (Demo.ctx []) Demo.world0 = Err TypeError.
Proof.
  apply (empty_batch_throws_TypeError Demo.toHex Demo.decodeHex Demo.encodeId
           Demo.classes (Demo.ctx []) Demo.world0 None).
  reflexivity.
Defined.

(** ** The generated storage classes *)

(** X17.  For [System.Account] a version test that holds implies that the
    item exists and that the other version test fails, and the batched
    getter of that version then returns the chain's answer for the keys,
    one singleton key tuple per account; the getter of a version whose
    test fails trips its [assert].  Likewise for the single version of
    [Balances.TotalIssuance]. *)
Theorem storage_version_tests_guard_the_getters
  (c : Chain) (blockHash : string) (keys : list bytes) :
  (SystemAccountStorage.isV1 c = true →
   SystemAccountStorage.isExists c = true ∧
   SystemAccountStorage.isV3 c = false ∧
   SystemAccountStorage.getManyAsV1 c blockHash keys
   = Ok (queryStorage c blockHash "System" "Account" ((fun k => [k]) <$> keys))) ∧
  (SystemAccountStorage.isV3 c = true →
   SystemAccountStorage.isExists c = true ∧
   SystemAccountStorage.isV1 c = false ∧
   SystemAccountStorage.getManyAsV3 c blockHash keys
   = Ok (queryStorage c blockHash "System" "Account" ((fun k => [k]) <$> keys))) ∧
  (SystemAccountStorage.isV1 c = false →
   SystemAccountStorage.getManyAsV1 c blockHash keys = Err AssertionError) ∧
  (SystemAccountStorage.isV3 c = false →
   SystemAccountStorage.getManyAsV3 c blockHash keys = Err AssertionError) ∧
  (BalancesTotalIssuanceStorage.isV1 c = true →
   BalancesTotalIssuanceStorage.isExists c = true ∧
   BalancesTotalIssuanceStorage.getAsV1 c blockHash
   = Ok (getStorage c blockHash "Balances" "TotalIssuance")) ∧
  (BalancesTotalIssuanceStorage.isV1 c = false →
   BalancesTotalIssuanceStorage.getAsV1 c blockHash = Err AssertionError).
Proof.
  unfold SystemAccountStorage.getManyAsV1, SystemAccountStorage.getManyAsV3,
    BalancesTotalIssuanceStorage.getAsV1.
  unfold SystemAccountStorage.isV1, SystemAccountStorage.isV3,
    SystemAccountStorage.isExists, BalancesTotalIssuanceStorage.isV1,
    BalancesTotalIssuanceStorage.isExists.
  destruct (getStorageItemTypeHash c "System" "Account") as [h|];
    destruct (getStorageItemTypeHash c "Balances" "TotalIssuance") as [h'|];
    repeat case_bool_decide; simplify_eq;
    repeat split; intros; simplify_eq; done.
Qed.

(** ** Runs on the demo chain *)

Lemma saveAccounts_leaves_other_rows_witness :
  ∃ w',
    Versioned.saveAccounts Demo.encodeId (Demo.ctx []) Demo.world0 Demo.block7
      [Demo.alice] = Ok w' ∧
    accounts (store w') !! "id:bobby"%string = Some Demo.bobbyRow.
Proof.
  eexists. split; [vm_compute; reflexivity|].
  refine (eq_trans
            (saveAccounts_leaves_other_rows Demo.encodeId Versioned.getBalances
               (Demo.ctx []) Demo.world0 Demo.block7 [Demo.alice] _
               "id:bobby"%string _ _) _).
  - vm_compute. reflexivity.
  - apply (bool_decide_unpack _). vm_compute. reflexivity.
  - vm_compute. reflexivity.
Defined.

Lemma saveAccounts_twice_witness :
  ∃ w2,
    Versioned.saveAccounts Demo.encodeId (Demo.ctx [])
      (mkWorld
         (mkStore {[ "id:alice"%string :=
                       Account.mk "id:alice" (Some 30) (Some 20) (Some 50) (Some 7) ]}
            [] [])
         [LogAccounts 1 1])
      Demo.block7 [Demo.alice; Demo.bobby] = Ok w2 ∧
    store w2
    = mkStore {[ "id:alice"%string :=
                   Account.mk "id:alice" (Some 30) (Some 20) (Some 50) (Some 7) ]}
        [] [].
Proof.
  apply (saveAccounts_twice Demo.encodeId Versioned.getBalances (Demo.ctx [])
           Demo.world0 Demo.block7 [Demo.alice; Demo.bobby]).
  vm_compute. reflexivity.
Defined.

Lemma saveAccounts_rows_are_old_or_stamped_witness :
  accounts (store Demo.world0) !! "id:alice"%string
    = Some (Account.mk "id:alice" (Some 30) (Some 20) (Some 50) (Some 7)) ∨
  (row_ok "id:alice"
     (Account.mk "id:alice" (Some 30) (Some 20) (Some 50) (Some 7)) = true ∧
   Account.updatedAt (Account.mk "id:alice" (Some 30) (Some 20) (Some 50) (Some 7))
     = Some (height Demo.block7) ∧
   "id:alice"%string ∈ Demo.encodeId <$> [Demo.alice; Demo.bobby]).
Proof.
  apply (saveAccounts_rows_are_old_or_stamped Demo.encodeId Versioned.getBalances
           (Demo.ctx []) Demo.world0 Demo.block7 [Demo.alice; Demo.bobby]
           (mkWorld
              (mkStore {[ "id:alice"%string :=
                            Account.mk "id:alice" (Some 30) (Some 20) (Some 50)
                              (Some 7) ]} [] [])
              [LogAccounts 1 1])).
  - vm_compute. reflexivity.
  - vm_compute. reflexivity.
Defined.

Lemma saveAccounts_logged_counts_witness :
  ∃ updated deleted,
    [LogAccounts 1 1] = [] ++ [LogAccounts updated deleted] ∧
    (updated + deleted = 2)%nat.
Proof.
  destruct (saveAccounts_logged_counts Demo.encodeId Versioned.getBalances
              (Demo.ctx []) Demo.world0 Demo.block7 [Demo.alice; Demo.bobby]
              [Some (Balance.mk 30 20); Some (Balance.mk 0 0)]
              (mkWorld
                 (mkStore {[ "id:alice"%string :=
                               Account.mk "id:alice" (Some 30) (Some 20) (Some 50)
                                 (Some 7) ]} [] [])
                 [LogAccounts 1 1]))
    as (updated & deleted & Hlog & _ & Hsum).
  - vm_compute. reflexivity.
  - vm_compute. reflexivity.
  - exists updated, deleted. split; [exact Hlog|]. apply Hsum.
    + apply (bool_decide_unpack _). vm_compute. reflexivity.
    + intros [|[|i]] Hi; [by eexists | by eexists | simpl in Hi; lia].
Defined.

Lemma fetched_entries_follow_the_answer_witness :
  balanceAt [Some (Balance.mk 30 20)] 1 = None ↔
  (length (queryStorage (_chain (Demo.ctxShort [])) (hash Demo.block7)
             "System" "Account" ((fun a => [a]) <$> [Demo.alice; Demo.bobby]))
   ≤ 1)%nat.
Proof.
  apply (fetched_entries_follow_the_answer (Demo.ctxShort []) Demo.block7
           [Demo.alice; Demo.bobby] [Some (Balance.mk 30 20)] 1).
  left. vm_compute. reflexivity.
Defined.

Lemma storage_version_tests_guard_the_getters_witness :
  SystemAccountStorage.isExists (_chain (Demo.ctx [])) = true ∧
  SystemAccountStorage.isV3 (_chain (Demo.ctx [])) = false ∧
  SystemAccountStorage.getManyAsV1 (_chain (Demo.ctx [])) "0xabcde" [Demo.alice]
  = Ok (queryStorage (_chain (Demo.ctx [])) "0xabcde" "System" "Account"
          ((fun k => [k]) <$> [Demo.alice])).
Proof.
  apply (storage_version_tests_guard_the_getters (_chain (Demo.ctx []))
           "0xabcde" [Demo.alice]).
  reflexivity.
Defined.

(** ** Outcomes of a batch of the versioned revision *)






(** ** Both parties of a transfer *)

(** X20.  When a window is accumulated without error, each of its
    [Balances.Transfer] and [Balances.ReserveRepatriated] events has put
    both of its parties into the set, as hex ids: the two components of the
    V1 payload when the event is of V1, and else [from] and [to] of the
    V3110 payload. *)
Theorem two_party_events_record_both_parties
  (toHex : bytes → string) (classes : events.Classes) (ctx : Context)
  (its : list Item) (s s' : JsSet.t) (item : Item) :
  forOf (fun s item => processBalancesEventItem toHex classes ctx item s) its s
    = Ok s' →
  item ∈ its →
  name item = "Balances.Transfer"%string ∨
  name item = "Balances.ReserveRepatriated"%string →
  let data :=
    if String.eqb (name item) "Balances.Transfer"
    then events.BalancesTransferEvent classes ctx (event item)
    else events.BalancesReserveRepatriatedEvent classes ctx (event item) in
  let parties :=
    if events.isV1 data then events.asV1 data
    else (events.from (events.asV3110 data), events.to (events.asV3110 data)) in
  toHex parties.1 ∈ s' ∧ toHex parties.2 ∈ s'.
Proof.
  intros Hrun Hin Hname data parties.
  destruct (forOf_process_item_ok toHex classes ctx its item s s' Hrun Hin)
    as [t Ht].
  assert (∀ x, x ∈ adds t [] → x ∈ s') as Hsub.
  { intros x Hx. apply (forOf_process_elem _ _ _ _ _ _ Hrun). right.
    exists item, (adds t []). split; [done|]. split; [apply Ht | done]. }
  assert (processBalancesEventItem toHex classes ctx item []
          = Ok (JsSet.add (toHex parties.2) (JsSet.add (toHex parties.1) [])))
    as Hitem.
  { specialize (Ht []). revert Ht. subst parties data.
    unfold processBalancesEventItem, getTransferAccounts,
      getReserveRepatriatedAccounts.
    destruct Hname as [-> | ->]; simpl;
      (destruct (events.isV1 _); [done|]);
      (destruct (events.isV3110 _); [done|]); done. }
  rewrite Ht in Hitem. injection Hitem as Hitem.
  split; apply Hsub; rewrite Hitem; rewrite !JsSet_add_elem; auto.
Qed.

Lemma two_party_events_record_both_parties_witness :
  "alice"%string ∈ ["carol"; "alice"; "bobby"]%string ∧
  "bobby"%string ∈ ["carol"; "alice"; "bobby"]%string.
Proof.
  apply (two_party_events_record_both_parties Demo.toHex Demo.classes
           (Demo.ctx [])
           [Demo.deposit Demo.carol; Demo.transfer Demo.alice Demo.bobby;
            Demo.deposit Demo.alice]
           [] ["carol"; "alice"; "bobby"]%string
           (Demo.transfer Demo.alice Demo.bobby)).
  - vm_compute. reflexivity.
  - apply elem_of_cons. right. apply elem_of_cons. left. reflexivity.
  - left. reflexivity.
Defined.
